(** * Multi-thread copy (fs/operations/multithread.go)

    A shallow embedding of rclone's parallel chunked transfer engine:
    the range arithmetic ([calculateNumChunks], the byte range of
    [copyChunk]), the adapter that turns a random-access writer into a
    chunk writer ([offsetWriter], [writerAtChunkWriter]) and the
    coordinator ([multiThreadCopy]).

    Conventions.
    - Go's [int64] is a [Z] with its two's-complement wrap-around written
      out ([Int64.wrap]).  Go's [int] is taken to be 64 bits wide, as on
      every 64-bit target, so the conversions between [int] and [int64]
      are the identity.
    - A Go panic is the [Panic] outcome of the [go] monad; [x / y] and
      [x % y] panic when [y] is zero.
    - Collaborators that live outside the file (the source object, the
      destination backend, the goroutine scheduler) are records of the
      answers they give; the coordinator logs every call it makes to them
      in a trace of [event]s. *)

From Stdlib Require Import ZArith List Bool String Lia.
Import ListNotations.

Local Open Scope Z_scope.

(** ** Machine integers *)

Module Int64.

Definition min_int : Z := - 2 ^ 63.
Definition max_int : Z := 2 ^ 63 - 1.

(** The values an [int64] can hold. *)
Definition in_range (z : Z) : Prop := min_int <= z <= max_int.

(** Two's-complement wrap-around of an arithmetic result. *)
Definition wrap (z : Z) : Z := (z + 2 ^ 63) mod 2 ^ 64 - 2 ^ 63.

End Int64.

(** ** Panics *)

Inductive go (A : Type) : Type :=
| Ret (a : A)
| Panic (msg : string).

Arguments Ret {A} a.
Arguments Panic {A} msg.

Definition go_bind {A B : Type} (m : go A) (k : A -> go B) : go B :=
  match m with
  | Ret a => k a
  | Panic msg => Panic msg
  end.

Declare Scope go_scope.
Delimit Scope go_scope with go.
Notation "x <- m ;; k" := (go_bind m (fun x => k))
  (at level 61, m at next level, right associativity) : go_scope.

Definition divide_by_zero : string := "runtime error: integer divide by zero".

(** [x / y] on [int64]: truncated division; the one overflowing quotient
    (the least integer divided by -1) wraps. *)
Definition go_div (x y : Z) : go Z :=
  if y =? 0 then Panic divide_by_zero else Ret (Int64.wrap (Z.quot x y)).

(** [x % y] on [int64]: the remainder has the sign of the dividend. *)
Definition go_rem (x y : Z) : go Z :=
  if y =? 0 then Panic divide_by_zero else Ret (Z.rem x y).

(** ** Range math *)

(** Given a file size and a chunkSize it returns the number of chunks,
    so that chunkSize * numChunks >= size. *)
Definition calculateNumChunks (size chunkSize : Z) : go Z :=
  (numChunks <- go_div size chunkSize ;;
   r <- go_rem size chunkSize ;;
   let numChunks := if negb (r =? 0) then Int64.wrap (numChunks + 1) else numChunks in
   Ret numChunks)%go.

(** ** Errors *)

(** Go [error] values: the ones this file builds and the sentinels it
    compares against; [backendError] stands for whatever a collaborator
    reports. *)
Inductive error : Type :=
| errorString (s : string)                  (* errors.New, fmt.Errorf without %w *)
| wrapError (msg : string) (err : error)    (* fmt.Errorf("msg: %w", err) *)
| wrongSize (bytesToWrite chunkNumber n : Z)
    (* "expected to write %v bytes for chunk %v, but wrote %v bytes" *)
| ErrorCantSetModTime
| ErrorCantSetModTimeWithoutDelete
| backendError (code : Z).

(** ** The offset writer *)

(** [io.WriterAt]: [WriteAt s p off] is the new state of the destination
    with the number of bytes it reports written and its error. *)
Class WriterAt (S : Type) : Type :=
  WriteAt : S -> list Byte.byte -> Z -> S * (Z * option error).

Module offsetWriter.

(** An offsetWriter maps writes at offset base to offset base+off in
    the underlying writer.  The underlying writer [w] is a handle on
    the shared destination, whose state is threaded through [Write]. *)
Record t : Type := { off : Z  (* the current offset *) }.

Definition Write {S : Type} `{WriterAt S}
    (o : t) (p : list Byte.byte) (w : S) : (t * S) * (Z * option error) :=
  let '(w, (n, err)) := WriteAt w p (off o) in
  (({| off := Int64.wrap (off o + n) |}, w), (n, err)).

(** A sequence of [Write] calls on one offset writer. *)
Fixpoint writeAll {S : Type} `{WriterAt S}
    (o : t) (ps : list (list Byte.byte)) (w : S) : t * S :=
  match ps with
  | [] => (o, w)
  | p :: ps => let '(ow, _) := Write o p w in writeAll (fst ow) ps (snd ow)
  end.

End offsetWriter.

(** newOffsetWriter returns an offsetWriter that writes to w starting at
    offset off. *)
Definition newOffsetWriter (off : Z) : offsetWriter.t :=
  {| offsetWriter.off := off |}.

(** The [io.Writer] that [WriteChunk] copies into: the offset writer,
    possibly behind [bufio.NewWriterSize]. *)
Inductive Writer : Type :=
| plain (o : offsetWriter.t)
| buffered (o : offsetWriter.t) (size : Z).

(** Two destinations to observe where the writes land. *)

(** One [WriteAt] call as the destination saw it. *)
Record call : Type := { call_off : Z; call_data : list Byte.byte; call_n : Z }.

(** Any destination, with a log of the calls it received. *)
Record recorder (S : Type) : Type := { inner : S; calls : list call }.

Arguments inner {S} _.
Arguments calls {S} _.

#[export] Instance recorder_WriterAt {S : Type} `{WriterAt S} : WriterAt (recorder S) :=
  fun r p off =>
    let '(s, (n, err)) := WriteAt (inner r) p off in
    ({| inner := s; calls := calls r ++ [{| call_off := off; call_data := p; call_n := n |}] |},
     (n, err)).

(** A byte-addressed memory that stores everything it is given. *)
Definition memory : Type := Z -> option Byte.byte.

Fixpoint store (p : list Byte.byte) (off : Z) (m : memory) : memory :=
  match p with
  | [] => m
  | b :: p => store p (off + 1) (fun a => if a =? off then Some b else m a)
  end.

#[export] Instance memory_WriterAt : WriterAt memory :=
  fun m p off => (store p off m, (Z.of_nat (List.length p), None)).

(** ** Collaborators *)

(** The configuration values the engine reads (fs.ConfigInfo). *)
Record ConfigInfo : Type := {
  MultiThreadStreams : Z;
  MultiThreadSet : bool;
  MultiThreadChunkSize : Z;
  MultiThreadWriteBufferSize : Z
}.

(** fs.ChunkWriterInfo, returned once when the destination is opened. *)
Record ChunkWriterInfo : Type := {
  ChunkSize : Z;
  Concurrency : Z;
  LeavePartsOnError : bool
}.

(** fs.ChunkWriter: what each method answers.  [WriteChunk] is called at
    most once per chunk number, [Close] and [Abort] at most once. *)
Record ChunkWriter : Type := {
  cw_WriteChunk : Z -> go (Z * option error);
  cw_Close : option error;
  cw_Abort : option error
}.

(** fs.WriterAtCloser as the adapter drives it: what [io.Copy] into a
    writer over the handle reports, what flushing the buffer reports and
    what closing the handle reports. *)
Record WriterAtCloser : Type := {
  wa_Copy : Writer -> Z * option error;
  wa_Flush : Writer -> option error;
  wa_Close : option error
}.

(** A destination object, as far as the engine uses it. *)
Record Object : Type := {
  SetModTime : option error;
  Remove : option error
}.

(** The destination's optional features; a missing feature is a nil
    function.  A present one is given by the answer to its single call. *)
Record Features : Type := {
  OpenChunkWriter : option (error + ChunkWriterInfo * ChunkWriter);
  OpenWriterAt : option (error + WriterAtCloser);
  PartialUploads : bool
}.

(** The destination file system.  [NewObject] is the lookup made after
    [Close]; the adapted writer's [Abort] looks the object up as well,
    possibly in another state, hence an answer of its own. *)
Record Fs : Type := {
  features : Features;
  NewObject : error + Object;
  NewObject_onAbort : error + Object
}.

(** What the source answers to the goroutine copying one chunk:
    [Open] with a range option, [io.CopyN] of so many bytes into the
    buffer, and the two [Close] calls deferred through [fs.CheckClose]. *)
Record ChunkIO : Type := {
  io_Open : option error;
  io_CopyN : Z -> option error;
  io_rcClose : option error;
  io_rwClose : option error
}.

(** The source object: its declared size and its answers per chunk. *)
Record SrcObject : Type := {
  Size : Z;
  src_io : Z -> ChunkIO
}.

(** The goroutine scheduler and the contexts.  The chunk copies run
    concurrently; what the coordinator can observe of the interleaving is
    whether [gCtx.Err()] is already set when it is about to start a chunk
    and which failing goroutine reported first to the errgroup.
    - [parent_done chunk]: the caller's context is done at that test;
    - [finished_before j chunk]: goroutine [j] returned before that test;
    - [wait_pick]: selects, among the failed goroutines, the one whose
      error [g.Wait] returns.
    Every real interleaving is one such schedule. *)
Record Schedule : Type := {
  parent_done : Z -> bool;
  finished_before : Z -> Z -> bool;
  wait_pick : nat
}.

(** ** The trace of calls *)

Inductive event : Type :=
| EvOpenChunkWriter                         (* openChunkWriter(ctx, remote, src) *)
| EvOpenWriterAt                            (* openWriterAt(ctx, remote, size) *)
| EvChunkWriter (info : ChunkWriterInfo)    (* the writer is open, with its Info *)
| EvSetLimit (numChunks concurrency : Z)    (* g.SetLimit(concurrency) *)
| EvGo (chunk : Z)                          (* g.Go(... copyChunk(chunk) ...) *)
| EvOpen (chunk start end_ : Z)             (* Open(src, RangeOption{start, end_}) *)
| EvWriteChunk (chunk : Z)                  (* writer.WriteChunk(chunk, rs) *)
| EvDone (chunk : Z) (err : option error)   (* copyChunk(chunk) returned err *)
| EvClose (err : option error)              (* chunkWriter.Close(ctx) returned err *)
| EvAbort (err : option error)              (* chunkWriter.Abort(ctx) returned err *)
| EvNewObject                               (* f.NewObject(ctx, remote) *)
| EvSetModTime.                             (* obj.SetModTime(ctx, ...) *)

(** Computations that log calls and may panic. *)
Definition M (A : Type) : Type := (list event * go A)%type.

Definition ret {A : Type} (a : A) : M A := ([], Ret a).

Definition bind {A B : Type} (m : M A) (k : A -> M B) : M B :=
  match m with
  | (t, Ret a) => let (t', r) := k a in (t ++ t', r)
  | (t, Panic msg) => (t, Panic msg)
  end.

Definition emit (e : event) : M unit := ([e], Ret tt).

Definition lift {A : Type} (m : go A) : M A := ([], m).

Declare Scope M_scope.
Delimit Scope M_scope with M.
Notation "x <- m ;; k" := (bind m (fun x => k))
  (at level 61, m at next level, right associativity) : M_scope.
Notation "m ;; k" := (bind m (fun _ => k))
  (at level 61, right associativity) : M_scope.

(** fs.CheckClose(c, &err), given what [c.Close()] answers: the close
    error is kept only when no error is pending. *)
Definition CheckClose (cerr : option error) (err : option error) : option error :=
  match err with
  | None => cerr
  | Some _ => err
  end.

(** ** The chunk copier *)

Module multiThreadCopyState.

(** state for a multi-thread copy *)
Record t : Type := {
  partSize : Z;
  size : Z;
  numChunks : Z;
  noSeek : bool  (* set if sure the receiving fs won't seek the input *)
}.

(** The byte range [start, end) of a chunk, as [copyChunk] computes it;
    [None] when the chunk starts at or after the end of the file. *)
Definition chunkRange (mc : t) (chunk : Z) : option (Z * Z) :=
  let start := Int64.wrap (chunk * partSize mc) in
  if start >=? size mc then None
  else
    let end_ := Int64.wrap (start + partSize mc) in
    let end_ := if end_ >? size mc then size mc else end_ in
    Some (start, end_).

(** Copy a single chunk into place *)
Definition copyChunk (mc : t) (src : SrcObject) (chunk : Z) (writer : ChunkWriter)
    : M (option error) :=
  match chunkRange mc chunk with
  | None => ret None
  | Some (start, end_) =>
    let size := Int64.wrap (end_ - start) in
    let io := src_io src chunk in
    (emit (EvOpen chunk start (Int64.wrap (end_ - 1))) ;;
     match io_Open io with
     | Some err => ret (Some (wrapError "multi-thread copy: failed to open source" err))
     | None =>
       (* defer fs.CheckClose(rc, &err) *)
       if noSeek mc then
         (* Read directly if we are sure we aren't going to seek *)
         emit (EvWriteChunk chunk) ;;
         r <- lift (cw_WriteChunk writer chunk) ;;
         let err :=
           match snd r with
           | Some err => Some (wrapError "multi-thread copy: failed to write chunk" err)
           | None => None
           end in
         ret (CheckClose (io_rcClose io) err)
       else
         (* Read the chunk into buffered reader; defer fs.CheckClose(rw, &err) *)
         match io_CopyN io size with
         | Some err =>
           let err := Some (wrapError "multi-thread copy: failed to read chunk" err) in
           ret (CheckClose (io_rcClose io) (CheckClose (io_rwClose io) err))
         | None =>
           emit (EvWriteChunk chunk) ;;
           r <- lift (cw_WriteChunk writer chunk) ;;
           let err :=
             match snd r with
             | Some err => Some (wrapError "multi-thread copy: failed to write chunk" err)
             | None => None
             end in
           ret (CheckClose (io_rcClose io) (CheckClose (io_rwClose io) err))
         end
     end)%M
  end.

End multiThreadCopyState.

(** ** The adapter from a random-access writer to a chunk writer *)

Module writerAtChunkWriter.

(** writerAtChunkWriter converts a WriterAtCloser into a ChunkWriter.
    Its [writerAt] and [f] are collaborators, handed to the methods
    that call them. *)
Record t : Type := {
  size : Z;
  chunkSize : Z;
  chunks : Z;
  writeBufferSize : Z
}.

(** The number of bytes [WriteChunk] expects for a chunk. *)
Definition bytesToWrite (w : t) (chunkNumber : Z) : go Z :=
  if chunkNumber =? Int64.wrap (chunks w - 1) then
    (r <- go_rem (size w) (chunkSize w) ;;
     Ret (if negb (r =? 0) then r else chunkSize w))%go
  else Ret (chunkSize w).

(** The writer [WriteChunk] copies the chunk into. *)
Definition writer (w : t) (chunkNumber : Z) : Writer :=
  let o := newOffsetWriter (Int64.wrap (chunkNumber * chunkSize w)) in
  if writeBufferSize w >? 0 then buffered o (writeBufferSize w) else plain o.

Definition flush_failed : error :=
  errorString "multi-thread copy: flush failed: %!w(<nil>)".

Section WriteChunk.

(** [io.Copy] and [bufio.Writer] belong to Go's standard library:
    [io_Copy writer reader st] is the state of the destination (and
    of the buffer) after [io.Copy(writer, reader)], with the byte
    count and the error it returns; [Flush] likewise. *)
Context {St Reader : Type}.
Variable io_Copy : Writer -> Reader -> St -> St * (Z * option error).
Variable Flush : Writer -> St -> St * option error.

(** WriteChunk writes chunkNumber from reader *)
Definition WriteChunk (w : t) (chunkNumber : Z) (reader : Reader) (st : St)
    : go (St * (Z * option error)) :=
  (bytesToWrite <- bytesToWrite w chunkNumber ;;
   let writer := writer w chunkNumber in
   let '(st, (n, err)) := io_Copy writer reader st in
   match err with
   | Some err => Ret (st, (-1, Some err))
   | None =>
     if negb (n =? bytesToWrite) then
       Ret (st, (-1, Some (wrongSize bytesToWrite chunkNumber n)))
     else
       (* if we were buffering, flush to disk *)
       match writer with
       | buffered _ _ =>
         let '(st, er2) := Flush writer st in
         match er2 with
         | Some _ => Ret (st, (-1, Some flush_failed))
         | None => Ret (st, (n, None))
         end
       | plain _ => Ret (st, (n, None))
       end
   end)%go.

End WriteChunk.

(** Close the chunk writing *)
Definition Close (writerAt : WriterAtCloser) : option error := wa_Close writerAt.

(** Abort the chunk writing *)
Definition Abort (f : Fs) : option error :=
  match NewObject_onAbort f with
  | inl err =>
    Some (wrapError
      "multi-thread copy: failed to find temp file when aborting chunk writer" err)
  | inr obj => Remove obj
  end.

(** The adapter seen through the fs.ChunkWriter interface. *)
Definition asChunkWriter (w : t) (writerAt : WriterAtCloser) (f : Fs) : ChunkWriter :=
  {| cw_WriteChunk chunkNumber :=
       (r <- WriteChunk (fun wr (_ : unit) st => (st, wa_Copy writerAt wr))
                        (fun wr st => (st, wa_Flush writerAt wr))
                        w chunkNumber tt tt ;;
        Ret (snd r))%go;
     cw_Close := Close writerAt;
     cw_Abort := Abort f |}.

End writerAtChunkWriter.

(** openChunkWriterFromOpenWriterAt adapts an OpenWriterAtFn into an
    OpenChunkWriterFn using chunkSize and writeBufferSize *)
Definition openChunkWriterFromOpenWriterAt
    (openWriterAt : error + WriterAtCloser) (chunkSize writeBufferSize : Z) (f : Fs)
    : ConfigInfo -> SrcObject -> M (error + ChunkWriterInfo * ChunkWriter) :=
  fun ci src =>
    (emit EvOpenWriterAt ;;
     match openWriterAt with
     | inl err => ret (inl err)
     | inr writerAt =>
       chunks <- lift (calculateNumChunks (Size src) chunkSize) ;;
       let chunkWriter :=
         {| writerAtChunkWriter.size := Size src;
            writerAtChunkWriter.chunkSize := chunkSize;
            writerAtChunkWriter.chunks := chunks;
            writerAtChunkWriter.writeBufferSize := writeBufferSize |} in
       let info :=
         {| ChunkSize := chunkSize;
            Concurrency := MultiThreadStreams ci;
            LeavePartsOnError := false |} in
       ret (inr (info, writerAtChunkWriter.asChunkWriter chunkWriter writerAt f))
     end)%M.

(** ** The coordinator *)

(** [gCtx.Err() != nil]: the group's context is done once the caller's
    context is, or once a goroutine of the group has returned an error. *)
Definition gCtx_Err (sched : Schedule) (done : list (Z * option error)) (chunk : Z) : bool :=
  parent_done sched chunk ||
  existsb (fun r => match snd r with
                    | Some _ => finished_before sched (fst r) chunk
                    | None => false
                    end) done.

(** The loop that starts the chunk copies (there are [n] chunks left,
    the next one is [chunk]); it yields the goroutines started, each with
    what it returned. *)
Fixpoint spawn (mc : multiThreadCopyState.t) (src : SrcObject) (chunkWriter : ChunkWriter)
    (sched : Schedule) (n : nat) (chunk : Z) (done : list (Z * option error))
    : M (list (Z * option error)) :=
  match n with
  | O => ret done
  | S n =>
    (* Fail fast, in case an errgroup managed function returns an error *)
    if gCtx_Err sched done chunk then ret done
    else
      (emit (EvGo chunk) ;;
       err <- multiThreadCopyState.copyChunk mc src chunk chunkWriter ;;
       emit (EvDone chunk err) ;;
       spawn mc src chunkWriter sched n (chunk + 1) (done ++ [(chunk, err)]))%M
  end.

(** The errors the goroutines returned. *)
Definition failures (done : list (Z * option error)) : list error :=
  flat_map (fun r => match snd r with Some err => [err] | None => [] end) done.

(** [g.Wait()]: the first error reported to the group, if any. *)
Definition Wait (sched : Schedule) (done : list (Z * option error)) : option error :=
  nth_error (failures done) (Nat.modulo (wait_pick sched) (List.length (failures done))).

(** [defer atexit.OnError(&err, fn)()] around the rest of the function:
    when it returns an error, [fn] cancels the transfer and, unless the
    backend keeps its parts, aborts the writer; the abort error is only
    logged.  A panic leaves [err] nil. *)
Definition OnError {A : Type} (info : ChunkWriterInfo) (chunkWriter : ChunkWriter)
    (body : M (A * option error)) : M (A * option error) :=
  (res <- body ;;
   match snd res with
   | Some _ =>
     if LeavePartsOnError info then ret res
     else (emit (EvAbort (cw_Abort chunkWriter)) ;; ret res)
   | None => ret res
   end)%M.

(** The number of streams handed to [g.SetLimit]. *)
Definition planConcurrency (ci : ConfigInfo) (info : ChunkWriterInfo)
    (numChunks concurrency : Z) : Z :=
  let concurrency := if concurrency >? numChunks then numChunks else concurrency in
  (* Use the backend concurrency if it is higher than --multi-thread-streams
     or if --multi-thread-streams wasn't set explicitly *)
  let concurrency :=
    if negb (MultiThreadSet ci) || (Concurrency info >? concurrency)
    then Concurrency info else concurrency in
  if concurrency <? 1 then 1 else concurrency.

(** After a successful [Close]: find the new object and set its
    modification time where the destination uploads partially. *)
Definition finalize (f : Fs) : M (option Object * option error) :=
  (emit EvNewObject ;;
   match NewObject f with
   | inl err =>
     ret (None, Some (wrapError "multi-thread copy: failed to find object after copy" err))
   | inr obj =>
     if PartialUploads (features f) then
       emit EvSetModTime ;;
       match SetModTime obj with
       | None | Some ErrorCantSetModTime | Some ErrorCantSetModTimeWithoutDelete =>
         ret (Some obj, None)
       | Some err =>
         ret (None,
              Some (wrapError "multi-thread copy: failed to set modification time" err))
       end
     else ret (Some obj, None)
   end)%M.

Definition close_failed (closeErr : error) : error :=
  wrapError "multi-thread copy: failed to close object after copy" closeErr.

(** What the transfer returns, given what [g.Wait] and [Close] returned. *)
Definition settle (f : Fs) (err closeErr : option error)
    : M (option Object * option error) :=
  match err with
  | Some err => ret (None, Some err)
  | None =>
    match closeErr with
    | Some closeErr => ret (None, Some (close_failed closeErr))
    | None => finalize f
    end
  end.

(** The transfer proper, once the writer is open. *)
Definition transfer (ci : ConfigInfo) (f : Fs) (src : SrcObject) (concurrency : Z)
    (sched : Schedule) (noseek : bool) (info : ChunkWriterInfo) (chunkWriter : ChunkWriter)
    : M (option Object * option error) :=
  let info_ChunkSize := if ChunkSize info >? Size src then Size src else ChunkSize info in
  (numChunks <- lift (calculateNumChunks (Size src) info_ChunkSize) ;;
   let concurrency := planConcurrency ci info numChunks concurrency in
   emit (EvSetLimit numChunks concurrency) ;;
   let mc :=
     {| multiThreadCopyState.size := Size src;
        multiThreadCopyState.partSize := info_ChunkSize;
        multiThreadCopyState.numChunks := numChunks;
        multiThreadCopyState.noSeek := noseek |} in
   done <- spawn mc src chunkWriter sched (Z.to_nat numChunks) 0 [] ;;
   let err := Wait sched done in
   let closeErr := cw_Close chunkWriter in
   emit (EvClose closeErr) ;;
   settle f err closeErr)%M.

(** Copy src to (f, remote) using streams download threads. It tries to
    use the OpenChunkWriter feature and if that's not available it
    creates an adapter using OpenWriterAt *)
Definition multiThreadCopy (ci : ConfigInfo) (f : Fs) (src : SrcObject) (concurrency : Z)
    (sched : Schedule) : M (option Object * option error) :=
  match
    match OpenChunkWriter (features f) with
    | Some answer => Some (fun (_ : ConfigInfo) (_ : SrcObject) => ret answer, false)
    | None =>
      match OpenWriterAt (features f) with
      | None => None
      | Some openWriterAt =>
        (* We don't seek the chunks with OpenWriterAt *)
        Some (openChunkWriterFromOpenWriterAt openWriterAt
                (MultiThreadChunkSize ci) (MultiThreadWriteBufferSize ci) f, true)
      end
    end
  with
  | None =>
    ret (None, Some (errorString
      "multi-thread copy: neither OpenChunkWriter nor OpenWriterAt supported"))
  | Some (openChunkWriter, noseek) =>
    if Size src <? 0 then
      ret (None, Some (errorString "multi-thread copy: can't copy unknown sized file"))
    else if Size src =? 0 then
      ret (None, Some (errorString "multi-thread copy: can't copy zero sized file"))
    else
      (emit EvOpenChunkWriter ;;
       opened <- openChunkWriter ci src ;;
       match opened with
       | inl err =>
         ret (None, Some (wrapError "multi-thread copy: failed to open chunk writer" err))
       | inr (info, chunkWriter) =>
         emit (EvChunkWriter info) ;;
         OnError info chunkWriter
           (transfer ci f src concurrency sched noseek info chunkWriter)
       end)%M
  end.

(** ** Vocabulary of the properties *)

(** The chunks [0, numChunks) tile the file: each has the range
    [i*partSize, min((i+1)*partSize, size)), no range is empty, the first
    starts at 0, each starts where the previous one ends, two distinct
    ranges do not overlap, and a byte offset lies in some range exactly
    when it lies in [0, size). *)
Definition tiles (mc : multiThreadCopyState.t) : Prop :=
  let range := multiThreadCopyState.chunkRange mc in
  let n := multiThreadCopyState.numChunks mc in
  let partSize := multiThreadCopyState.partSize mc in
  let size := multiThreadCopyState.size mc in
  (forall i, 0 <= i < n ->
     range i = Some (i * partSize, Z.min ((i + 1) * partSize) size)) /\
  (forall i s e, 0 <= i < n -> range i = Some (s, e) -> s < e) /\
  (forall s e, range 0 = Some (s, e) -> s = 0) /\
  (forall i s e s' e', 0 <= i -> i + 1 < n ->
     range i = Some (s, e) -> range (i + 1) = Some (s', e') -> e = s') /\
  (forall i j s e s' e', 0 <= i < j -> j < n ->
     range i = Some (s, e) -> range j = Some (s', e') -> e <= s') /\
  (forall b, 0 <= b < size <->
     exists i s e, 0 <= i < n /\ range i = Some (s, e) /\ s <= b < e).

(** The events of the goroutines copying chunks. *)
Definition is_chunk_event (ev : event) : bool :=
  match ev with
  | EvGo _ | EvOpen _ _ _ | EvWriteChunk _ | EvDone _ _ => true
  | _ => false
  end.

Definition is_Close (ev : event) : bool :=
  match ev with EvClose _ => true | _ => false end.

Definition is_Abort (ev : event) : bool :=
  match ev with EvAbort _ => true | _ => false end.

(** The events of the calls that open the destination. *)
Definition is_open_event (ev : event) : bool :=
  match ev with
  | EvOpenChunkWriter | EvOpenWriterAt | EvChunkWriter _ => true
  | _ => false
  end.

(** How many events of a kind a trace holds. *)
Definition count (kind : event -> bool) (tr : list event) : nat :=
  List.length (filter kind tr).

(** The calls the deferred error handler makes once the transfer has
    returned [res]. *)
Definition aborts (info : ChunkWriterInfo) (chunkWriter : ChunkWriter)
    (res : option Object * option error) : list event :=
  match snd res with
  | Some _ => if LeavePartsOnError info then [] else [EvAbort (cw_Abort chunkWriter)]
  | None => []
  end.

(** The runs of the coordinator, by how far they get: rejected before
    anything is opened; the writer not opened; a panic while planning; a
    panic in a goroutine; or the pool waited for, the writer closed and
    the result settled. *)
Inductive run (ci : ConfigInfo) (f : Fs) (src : SrcObject) (concurrency : Z)
    (sched : Schedule) : M (option Object * option error) -> Prop :=
| run_rejected e :
    run ci f src concurrency sched ([], Ret (None, Some e))
| run_not_opened pre r :
    0 < Size src ->
    (forall ev, In ev pre -> ev = EvOpenWriterAt) ->
    (exists e, r = Ret (None, Some e)) \/ (exists msg, r = Panic msg) ->
    run ci f src concurrency sched (EvOpenChunkWriter :: pre, r)
| run_plan_panicked pre info msg :
    0 < Size src ->
    (forall ev, In ev pre -> ev = EvOpenWriterAt) ->
    calculateNumChunks (Size src)
      (if ChunkSize info >? Size src then Size src else ChunkSize info) = Panic msg ->
    run ci f src concurrency sched
      (EvOpenChunkWriter :: pre ++ [EvChunkWriter info], Panic msg)
| run_chunk_panicked pre info n t msg :
    0 < Size src ->
    (forall ev, In ev pre -> ev = EvOpenWriterAt) ->
    calculateNumChunks (Size src)
      (if ChunkSize info >? Size src then Size src else ChunkSize info) = Ret n ->
    (forall ev, In ev t -> is_chunk_event ev = true) ->
    run ci f src concurrency sched
      (EvOpenChunkWriter :: pre ++ EvChunkWriter info
         :: EvSetLimit n (planConcurrency ci info n concurrency) :: t,
       Panic msg)
| run_completed pre info chunkWriter n t done tail res :
    0 < Size src ->
    (forall ev, In ev pre -> ev = EvOpenWriterAt) ->
    calculateNumChunks (Size src)
      (if ChunkSize info >? Size src then Size src else ChunkSize info) = Ret n ->
    (forall ev, In ev t -> is_chunk_event ev = true) ->
    (forall c err, In (EvDone c err) t <-> In (c, err) done) ->
    (forall c, In (EvGo c) t -> exists err, In (EvDone c err) t) ->
    settle f (Wait sched done) (cw_Close chunkWriter) = (tail, Ret res) ->
    (forall ev, In ev tail -> ev = EvNewObject \/ ev = EvSetModTime) ->
    run ci f src concurrency sched
      (EvOpenChunkWriter :: pre ++ EvChunkWriter info
         :: EvSetLimit n (planConcurrency ci info n concurrency)
         :: t ++ EvClose (cw_Close chunkWriter) :: tail ++ aborts info chunkWriter res,
       Ret res).

(** The offset writer inside a writer. *)
Definition underlying (wr : Writer) : offsetWriter.t :=
  match wr with
  | plain o | buffered o _ => o
  end.

(** The bytes a list of calls reported written. *)
Fixpoint total (cs : list call) : Z :=
  match cs with
  | [] => 0
  | c :: cs => call_n c + total cs
  end.

(** [chain start cs final]: the calls [cs] were made by one offset writer
    whose cursor went from [start] to [final]. *)
Fixpoint chain (start : Z) (cs : list call) (final : Z) : Prop :=
  match cs with
  | [] => final = start
  | c :: cs => call_off c = start /\ chain (Int64.wrap (start + call_n c)) cs final
  end.

(** The same destination, except for what aborting answers: [a] from a
    native writer's [Abort], [lookup] to the adapted writer's search for
    the object it has to remove. *)
Definition answering_abort (a : option error) (w : ChunkWriter) : ChunkWriter :=
  {| cw_WriteChunk := cw_WriteChunk w; cw_Close := cw_Close w; cw_Abort := a |}.

Definition abort_answers (a : option error) (lookup : error + Object) (f : Fs) : Fs :=
  {| features :=
       {| OpenChunkWriter :=
            match OpenChunkWriter (features f) with
            | Some (inr (info, w)) => Some (inr (info, answering_abort a w))
            | other => other
            end;
          OpenWriterAt := OpenWriterAt (features f);
          PartialUploads := PartialUploads (features f) |};
     NewObject := NewObject f;
     NewObject_onAbort := lookup |}.

(** ** Concrete collaborators *)

Module Examples.

(** A source that answers every call without error. *)
Definition quiet : ChunkIO :=
  {| io_Open := None; io_CopyN := fun _ => None;
     io_rcClose := None; io_rwClose := None |}.

Definition source (size : Z) : SrcObject :=
  {| Size := size; src_io := fun _ => quiet |}.

(** A native chunk writer that fails on one chunk (on none if the chunk
    number is negative), with given answers to [Close] and [Abort]. *)
Definition writer (failing : Z) (closeErr abortErr : option error) : ChunkWriter :=
  {| cw_WriteChunk chunk :=
       if chunk =? failing then Ret (-1, Some (backendError 7)) else Ret (64, None);
     cw_Close := closeErr;
     cw_Abort := abortErr |}.

Definition object : Object := {| SetModTime := None; Remove := None |}.

(** A destination with a native chunk writer. *)
Definition native (info : ChunkWriterInfo) (w : ChunkWriter) : Fs :=
  {| features := {| OpenChunkWriter := Some (inr (info, w));
                    OpenWriterAt := None;
                    PartialUploads := false |};
     NewObject := inr object;
     NewObject_onAbort := inr object |}.

Definition info (chunkSize concurrency : Z) (leave : bool) : ChunkWriterInfo :=
  {| ChunkSize := chunkSize; Concurrency := concurrency; LeavePartsOnError := leave |}.

Definition config (streams : Z) (set : bool) : ConfigInfo :=
  {| MultiThreadStreams := streams; MultiThreadSet := set;
     MultiThreadChunkSize := 64; MultiThreadWriteBufferSize := 0 |}.

(** Every goroutine has returned before the next one is started: the
    schedule of a pool of one worker. *)
Definition sequential : Schedule :=
  {| parent_done := fun _ => false;
     finished_before := fun _ _ => true;
     wait_pick := 0 |}.

(** No goroutine has returned before the last one is started. *)
Definition parallel : Schedule :=
  {| parent_done := fun _ => false;
     finished_before := fun _ _ => false;
     wait_pick := 0 |}.

(** A chunk writer over a random-access destination: 150 bytes in
    chunks of 64, unbuffered. *)
Definition adapted : writerAtChunkWriter.t :=
  {| writerAtChunkWriter.size := 150;
     writerAtChunkWriter.chunkSize := 64;
     writerAtChunkWriter.chunks := 3;
     writerAtChunkWriter.writeBufferSize := 0 |}.

(** An [io.Copy] that copies [n] bytes without error, and a flush that
    succeeds. *)
Definition copies (n : Z) : Writer -> unit -> unit -> unit * (Z * option error) :=
  fun _ _ st => (st, (n, None)).

Definition flushes : Writer -> unit -> unit * option error :=
  fun _ st => (st, None).

Definition empty : memory := fun _ => None.

(** The error a chunk copy returns when [writer] fails on it. *)
Definition write_failed : error :=
  wrapError "multi-thread copy: failed to write chunk" (backendError 7).

End Examples.

(** ** The decision to copy with several threads *)

(** What the decision reads beyond the configuration of the engine, the
    destination's features and the source's size: the size cutoff
    (ci.MultiThreadCutoff) and the flags of the two file systems. *)
Record Eligibility : Type := {
  MultiThreadCutoff : Z;
  NoMultiThreading : bool;   (* src.Fs().Features().NoMultiThreading *)
  src_IsLocal : bool;        (* src.Fs().Features().IsLocal *)
  dst_IsLocal : bool         (* f.Features().IsLocal *)
}.

(** Return a boolean as to whether we should use multi thread copy for
    this transfer *)
Definition doMultiThreadCopy (ci : ConfigInfo) (e : Eligibility) (f : Fs)
    (src : SrcObject) : bool :=
  (* Disable multi thread if... *)
  (* ...it isn't configured *)
  if MultiThreadStreams ci <=? 1 then false
  (* ...if the source doesn't support it *)
  else if NoMultiThreading e then false
  (* ...size of object is less than cutoff *)
  else if Size src <? MultiThreadCutoff e then false
  else
    (* ...destination doesn't support it *)
    match OpenChunkWriter (features f), OpenWriterAt (features f) with
    | None, None => false
    | _, _ =>
      (* ...if --multi-thread-streams not in use and source and
         destination are both local *)
      if negb (MultiThreadSet ci) && dst_IsLocal e && src_IsLocal e then false
      else true
    end.

(** ** More vocabulary *)

Definition is_Go (ev : event) : bool :=
  match ev with EvGo _ => true | _ => false end.

(** The chunk numbers [first], [first + 1], ..., [k] of them. *)
Definition chunk_numbers (first : Z) (k : nat) : list Z :=
  map (fun i => first + Z.of_nat i) (seq 0 k).

(** The number of bytes [copyChunk] reads for a chunk ([size := end -
    start]); none for a chunk it skips. *)
Definition chunkLength (mc : multiThreadCopyState.t) (chunk : Z) : Z :=
  match multiThreadCopyState.chunkRange mc chunk with
  | Some (start, end_) => Int64.wrap (end_ - start)
  | None => 0
  end.

Definition sum (l : list Z) : Z := fold_right Z.add 0 l.

(** The state the coordinator gives the chunk copiers for a source of
    [size] bytes and a writer that chose [chunkSize]. *)
Definition planned (size chunkSize numChunks : Z) (noseek : bool)
    : multiThreadCopyState.t :=
  {| multiThreadCopyState.size := size;
     multiThreadCopyState.partSize := if chunkSize >? size then size else chunkSize;
     multiThreadCopyState.numChunks := numChunks;
     multiThreadCopyState.noSeek := noseek |}.

(** How the writer of a run was opened: [info] and [w] are the answer of
    the destination's OpenChunkWriter or, without that feature, what the
    adapter makes of the answer of OpenWriterAt; [noseek] is set in the
    second case. *)
Definition opened_by (ci : ConfigInfo) (f : Fs) (src : SrcObject)
    (info : ChunkWriterInfo) (w : ChunkWriter) (noseek : bool) : Prop :=
  match OpenChunkWriter (features f) with
  | Some answer => answer = inr (info, w) /\ noseek = false
  | None =>
    exists writerAt chunks,
      OpenWriterAt (features f) = Some (inr writerAt) /\
      calculateNumChunks (Size src) (MultiThreadChunkSize ci) = Ret chunks /\
      info = {| ChunkSize := MultiThreadChunkSize ci;
                Concurrency := MultiThreadStreams ci;
                LeavePartsOnError := false |} /\
      w = writerAtChunkWriter.asChunkWriter
            {| writerAtChunkWriter.size := Size src;
               writerAtChunkWriter.chunkSize := MultiThreadChunkSize ci;
               writerAtChunkWriter.chunks := chunks;
               writerAtChunkWriter.writeBufferSize := MultiThreadWriteBufferSize ci |}
            writerAt f /\
      noseek = true
  end.

(** The runs of the coordinator once more, with the loop that starts the
    chunk copies in view. *)
Inductive pooled (ci : ConfigInfo) (f : Fs) (src : SrcObject) (concurrency : Z)
    (sched : Schedule) : M (option Object * option error) -> Prop :=
| pooled_rejected e :
    pooled ci f src concurrency sched ([], Ret (None, Some e))
| pooled_not_opened pre r :
    0 < Size src ->
    (forall ev, In ev pre -> ev = EvOpenWriterAt) ->
    (exists e, r = Ret (None, Some e)) \/ (exists msg, r = Panic msg) ->
    pooled ci f src concurrency sched (EvOpenChunkWriter :: pre, r)
| pooled_plan_panicked info w noseek msg :
    0 < Size src ->
    opened_by ci f src info w noseek ->
    calculateNumChunks (Size src)
      (if ChunkSize info >? Size src then Size src else ChunkSize info) = Panic msg ->
    pooled ci f src concurrency sched
      (EvOpenChunkWriter :: (if noseek then [EvOpenWriterAt] else [])
         ++ [EvChunkWriter info], Panic msg)
| pooled_chunk_panicked info w noseek n t msg :
    0 < Size src ->
    opened_by ci f src info w noseek ->
    calculateNumChunks (Size src)
      (if ChunkSize info >? Size src then Size src else ChunkSize info) = Ret n ->
    spawn (planned (Size src) (ChunkSize info) n noseek) src w sched (Z.to_nat n) 0 []
    = (t, Panic msg) ->
    pooled ci f src concurrency sched
      (EvOpenChunkWriter :: (if noseek then [EvOpenWriterAt] else [])
         ++ EvChunkWriter info
         :: EvSetLimit n (planConcurrency ci info n concurrency) :: t,
       Panic msg)
| pooled_completed info w noseek n t done tail res :
    0 < Size src ->
    opened_by ci f src info w noseek ->
    calculateNumChunks (Size src)
      (if ChunkSize info >? Size src then Size src else ChunkSize info) = Ret n ->
    spawn (planned (Size src) (ChunkSize info) n noseek) src w sched (Z.to_nat n) 0 []
    = (t, Ret done) ->
    settle f (Wait sched done) (cw_Close w) = (tail, Ret res) ->
    (forall ev, In ev tail -> ev = EvNewObject \/ ev = EvSetModTime) ->
    pooled ci f src concurrency sched
      (EvOpenChunkWriter :: (if noseek then [EvOpenWriterAt] else [])
         ++ EvChunkWriter info
         :: EvSetLimit n (planConcurrency ci info n concurrency)
         :: t ++ EvClose (cw_Close w) :: tail ++ aborts info w res,
       Ret res).

(** The same source, except that reading a chunk into the buffer and
    closing the buffer always succeed. *)
Definition unbuffered (src : SrcObject) : SrcObject :=
  {| Size := Size src;
     src_io chunk :=
       {| io_Open := io_Open (src_io src chunk);
          io_CopyN := fun _ => None;
          io_rcClose := io_rcClose (src_io src chunk);
          io_rwClose := None |} |}.

(** ** More concrete collaborators *)

Module Cases.

(** Remote file systems, streams set explicitly, a cutoff of 100 bytes. *)
Definition remote : Eligibility :=
  {| MultiThreadCutoff := 100; NoMultiThreading := false;
     src_IsLocal := false; dst_IsLocal := false |}.

Definition config (streams chunkSize : Z) : ConfigInfo :=
  {| MultiThreadStreams := streams; MultiThreadSet := true;
     MultiThreadChunkSize := chunkSize; MultiThreadWriteBufferSize := 0 |}.

(** A random-access destination through which every chunk copy moves 64
    bytes. *)
Definition handle : WriterAtCloser :=
  {| wa_Copy := fun _ => (64, None); wa_Flush := fun _ => None; wa_Close := None |}.

(** A destination with a random-access writer only. *)
Definition random_access : Fs :=
  {| features := {| OpenChunkWriter := None;
                    OpenWriterAt := Some (inr handle);
                    PartialUploads := false |};
     NewObject := inr Examples.object;
     NewObject_onAbort := inr Examples.object |}.

(** The caller's context is done from the start. *)
Definition cancelled : Schedule :=
  {| parent_done := fun _ => true;
     finished_before := fun _ _ => false;
     wait_pick := 0 |}.

(** 150 bytes in parts of 64. *)
Definition state : multiThreadCopyState.t :=
  {| multiThreadCopyState.size := 150;
     multiThreadCopyState.partSize := 64;
     multiThreadCopyState.numChunks := 3;
     multiThreadCopyState.noSeek := false |}.

End Cases.

(** * Properties *)

Section Int64Facts.

Lemma wrap_in_range (z : Z) : Int64.in_range z -> Int64.wrap z = z.
Proof.
  unfold Int64.in_range, Int64.wrap, Int64.min_int, Int64.max_int.
  intros Hz. rewrite Z.mod_small; lia.
Qed.

Lemma wrap_range (z : Z) : Int64.in_range (Int64.wrap z).
Proof.
  unfold Int64.in_range, Int64.wrap, Int64.min_int, Int64.max_int.
  pose proof (Z.mod_pos_bound (z + 2 ^ 63) (2 ^ 64) ltac:(lia)). lia.
Qed.

End Int64Facts.

Section RangeMath.

(** On a positive divisor and a non-negative dividend the function is
    the mathematical ceiling of the quotient. *)
Lemma calculateNumChunks_pos (size chunkSize : Z) :
  0 <= size <= Int64.max_int -> 0 < chunkSize ->
  calculateNumChunks size chunkSize =
    Ret (size / chunkSize + (if size mod chunkSize =? 0 then 0 else 1)).
Proof.
  intros Hs Hc. unfold calculateNumChunks, go_div, go_rem, go_bind.
  destruct (Z.eqb_spec chunkSize 0) as [->|_]; [lia|].
  rewrite Z.quot_div_nonneg, Z.rem_mod_nonneg by lia.
  assert (Hq : 0 <= size / chunkSize <= size).
  { split; [apply Z.div_pos; lia|].
    apply Z.div_le_upper_bound; [lia|]. nia. }
  pose proof (Z.mod_pos_bound size chunkSize Hc) as Hm.
  pose proof (Z.div_mod size chunkSize ltac:(lia)) as Hdm.
  unfold Int64.max_int in *.
  rewrite (wrap_in_range (size / chunkSize))
    by (unfold Int64.in_range, Int64.min_int, Int64.max_int; lia).
  destruct (Z.eqb_spec (size mod chunkSize) 0) as [E|E]; cbn [negb].
  - now rewrite Z.add_0_r.
  - rewrite wrap_in_range; [reflexivity|].
    unfold Int64.in_range, Int64.min_int, Int64.max_int.
    assert (size / chunkSize < size \/ chunkSize = 1) as [Hlt|H1] by nia; [lia|].
    subst chunkSize. rewrite Z.mod_1_r in E. congruence.
Qed.

End RangeMath.

Section ChunkRanges.

Import multiThreadCopyState.

(** C2: for all size > 0 and chunkSize > 0, calculateNumChunks returns
    the ceiling of size/chunkSize: the result numChunks satisfies
    numChunks*chunkSize >= size and (numChunks-1)*chunkSize < size. *)
Theorem calculateNumChunks_ceil (size chunkSize : Z) :
  0 < size <= Int64.max_int -> 0 < chunkSize ->
  exists numChunks,
    calculateNumChunks size chunkSize = Ret numChunks /\
    numChunks * chunkSize >= size /\
    (numChunks - 1) * chunkSize < size.
Proof.
  intros Hs Hc. rewrite calculateNumChunks_pos by lia.
  eexists; split; [reflexivity|].
  pose proof (Z.mod_pos_bound size chunkSize Hc) as Hm.
  pose proof (Z.div_mod size chunkSize ltac:(lia)) as Hdm.
  destruct (Z.eqb_spec (size mod chunkSize) 0) as [E|E]; nia.
Qed.

Lemma calculateNumChunks_ceil_witness :
  (0 < 150 <= Int64.max_int /\ 0 < 64) /\
  exists numChunks,
    calculateNumChunks 150 64 = Ret numChunks /\
    numChunks * 64 >= 150 /\ (numChunks - 1) * 64 < 150.
Proof.
  split; [unfold Int64.max_int; lia|].
  apply (calculateNumChunks_ceil 150 64); unfold Int64.max_int; lia.
Defined.

(** The range of a chunk when nothing overflows. *)
Lemma chunkRange_exact (mc : t) (i : Z) :
  0 < size mc <= Int64.max_int -> 0 < partSize mc ->
  0 <= i -> i * partSize mc < size mc ->
  (i + 1) * partSize mc <= Int64.max_int ->
  chunkRange mc i = Some (i * partSize mc, Z.min ((i + 1) * partSize mc) (size mc)).
Proof.
  intros Hs Hp Hi Hlt Hov. unfold chunkRange.
  assert (R : forall z, 0 <= z <= Int64.max_int -> Int64.wrap z = z).
  { intros z Hz. apply wrap_in_range.
    unfold Int64.in_range, Int64.min_int, Int64.max_int in *. lia. }
  rewrite (R (i * partSize mc)) by nia.
  destruct (Z.geb_spec (i * partSize mc) (size mc)) as [G|G]; [lia|].
  rewrite (R (i * partSize mc + partSize mc)) by nia.
  replace (i * partSize mc + partSize mc) with ((i + 1) * partSize mc) by ring.
  destruct (Z.gtb_spec ((i + 1) * partSize mc) (size mc)) as [G'|G'];
    f_equal; f_equal; lia.
Qed.

(** C3, amended: for every size > 0 and partSize > 0 with numChunks =
    ceil(size/partSize) such that numChunks*partSize still fits an int64
    (so that start + partSize never overflows), the byte ranges the chunk
    copier computes for the indices in [0, numChunks) are
    [i*partSize, min((i+1)*partSize, size)): contiguous, pairwise
    non-overlapping, and their union is exactly [0, size). *)
Theorem chunk_ranges_tile (mc : t) :
  0 < size mc <= Int64.max_int -> 0 < partSize mc ->
  calculateNumChunks (size mc) (partSize mc) = Ret (numChunks mc) ->
  numChunks mc * partSize mc <= Int64.max_int ->
  tiles mc.
Proof.
  intros Hs Hp Hn Hov.
  destruct (calculateNumChunks_ceil (size mc) (partSize mc) Hs Hp)
    as (n & En & Hge & Hlt).
  rewrite Hn in En. injection En as <-.
  assert (X : forall i, 0 <= i < numChunks mc ->
    chunkRange mc i
    = Some (i * partSize mc, Z.min ((i + 1) * partSize mc) (size mc))).
  { intros i Hi. apply chunkRange_exact; try lia; nia. }
  unfold tiles; cbv zeta. repeat split.
  - exact X.
  - intros i s e Hi E. rewrite X in E by lia. injection E as <- <-. nia.
  - intros s e E. rewrite X in E by nia. injection E as <- <-. lia.
  - intros i s e s' e' H0 H1 E E'.
    rewrite X in E, E' by lia. injection E as <- <-. injection E' as <- <-.
    nia.
  - intros i j s e s' e' Hij Hj E E'.
    rewrite X in E, E' by lia. injection E as <- <-. injection E' as <- <-.
    nia.
  - intros Hb.
    pose proof (Z.mod_pos_bound b (partSize mc) Hp) as Hm.
    pose proof (Z.div_mod b (partSize mc) ltac:(lia)) as Hdm.
    assert (0 <= b / partSize mc) by (apply Z.div_pos; lia).
    exists (b / partSize mc), (b / partSize mc * partSize mc),
      (Z.min ((b / partSize mc + 1) * partSize mc) (size mc)).
    assert (b / partSize mc < numChunks mc) by nia.
    split; [lia|]. split; [apply X; lia|]. nia.
  - destruct H as (i & s & e & Hi & E & Hb).
    rewrite X in E by lia. injection E as <- <-. nia.
  - destruct H as (i & s & e & Hi & E & Hb).
    rewrite X in E by lia. injection E as <- <-. lia.
Qed.

Lemma chunk_ranges_tile_witness :
  let mc := {| size := 150; partSize := 64; numChunks := 3; noSeek := false |} in
  (0 < size mc <= Int64.max_int /\ 0 < partSize mc /\
   calculateNumChunks (size mc) (partSize mc) = Ret (numChunks mc) /\
   numChunks mc * partSize mc <= Int64.max_int) /\
  tiles mc.
Proof.
  cbv zeta.
  assert (H : 0 < 150 <= Int64.max_int /\ 0 < 64 /\
              calculateNumChunks 150 64 = Ret 3 /\ 3 * 64 <= Int64.max_int).
  { unfold Int64.max_int. repeat split; try lia. }
  split; [exact H|].
  apply (chunk_ranges_tile
           {| size := 150; partSize := 64; numChunks := 3; noSeek := false |});
    apply H.
Defined.

(** C3 as stated fails where start + partSize overflows: for a source
    of 2^63-1 bytes in two parts of 2^62+1 bytes, the end of the second
    part wraps around to a negative offset. *)
Lemma chunk_ranges_overflow :
  ~ (forall mc : t,
       0 < size mc <= Int64.max_int -> 0 < partSize mc <= Int64.max_int ->
       calculateNumChunks (size mc) (partSize mc) = Ret (numChunks mc) ->
       tiles mc).
Proof.
  intros H.
  specialize (H {| size := 2 ^ 63 - 1; partSize := 2 ^ 62 + 1;
                   numChunks := 2; noSeek := false |}).
  destruct H as (H & _).
  - unfold Int64.max_int; cbn; lia.
  - unfold Int64.max_int; cbn; lia.
  - reflexivity.
  - specialize (H 1 ltac:(cbn; lia)). vm_compute in H. discriminate H.
Qed.

End ChunkRanges.

(** ** The shape of a run of the coordinator *)

#[local] Arguments transfer : simpl never.
#[local] Arguments OnError : simpl never.

Section Runs.

Variables (ci : ConfigInfo) (f : Fs) (src : SrcObject) (sched : Schedule).

Lemma copyChunk_events mc chunk writer ev :
  In ev (fst (multiThreadCopyState.copyChunk mc src chunk writer)) ->
  exists s e, ev = EvOpen chunk s e \/ ev = EvWriteChunk chunk.
Proof.
  unfold multiThreadCopyState.copyChunk.
  destruct (multiThreadCopyState.chunkRange mc chunk) as [[s e]|]; [|intros []].
  destruct (io_Open (src_io src chunk)); cbn.
  - intros [<-|[]]. eauto.
  - destruct (multiThreadCopyState.noSeek mc);
      [|destruct (io_CopyN (src_io src chunk) _)];
      destruct (cw_WriteChunk writer chunk); cbn;
      intros H; exists s, (Int64.wrap (e - 1)); intuition (subst; auto).
Qed.

(** The loop logs chunk events only; when no goroutine panics, what it
    yields is what the goroutines it started have returned. *)
Lemma spawn_spec mc writer n :
  forall chunk done t r,
    spawn mc src writer sched n chunk done = (t, r) ->
    (forall ev, In ev t -> is_chunk_event ev = true) /\
    match r with
    | Ret done' =>
      exists new, done' = done ++ new /\
        (forall c err, In (EvDone c err) t <-> In (c, err) new) /\
        (forall c, In (EvGo c) t -> exists err, In (EvDone c err) t)
    | Panic _ => True
    end.
Proof.
  induction n as [|n IH]; intros chunk done t r; cbn [spawn].
  - intros [= <- <-]. split; [intros ev []|].
    exists []. rewrite app_nil_r. repeat split; intros; cbn in *; tauto.
  - destruct (gCtx_Err sched done chunk).
    { intros [= <- <-]. split; [intros ev []|].
      exists []. rewrite app_nil_r. repeat split; intros; cbn in *; tauto. }
    pose proof (copyChunk_events mc chunk writer) as Hc.
    destruct (multiThreadCopyState.copyChunk mc src chunk writer) as [tc [err|msg]];
      cbn [fst] in Hc; cbn.
    + specialize (IH (chunk + 1) (done ++ [(chunk, err)])).
      destruct (spawn mc src writer sched n (chunk + 1) (done ++ [(chunk, err)]))
        as [t' r'].
      specialize (IH t' r' eq_refl). destruct IH as [IH1 IH2].
      intros [= <- <-]. split.
      * intros ev [<-|Hev]; [reflexivity|].
        rewrite ?app_nil_r in Hev.
        apply in_app_or in Hev as [Hev|[<-|Hev]]; [|reflexivity|now apply IH1].
        destruct (Hc ev Hev) as (s & e & [->| ->]); reflexivity.
      * destruct r' as [done'|]; [|exact I].
        destruct IH2 as (new & -> & Hd & Hg).
        exists ((chunk, err) :: new). rewrite <- app_assoc. split; [reflexivity|].
        rewrite ?app_nil_r. split.
        -- intros c e. split.
           ++ intros [H|H]; [discriminate|].
              apply in_app_or in H as [H|[H|H]].
              ** destruct (Hc _ H) as (s0 & e0 & [?|?]); discriminate.
              ** injection H as <- <-. now left.
              ** right. now apply Hd.
           ++ intros [H|H]; right; apply in_or_app; right.
              ** injection H as <- <-. now left.
              ** right. now apply Hd.
        -- intros c [H|H].
           ++ injection H as <-. exists err. right. apply in_or_app. right. now left.
           ++ apply in_app_or in H as [H|[H|H]].
              ** destruct (Hc _ H) as (s0 & e0 & [?|?]); discriminate.
              ** discriminate.
              ** destruct (Hg c H) as (e' & He'). exists e'.
                 right. apply in_or_app. right. now right.
    + intros [= <- <-]. split; [|exact I].
      intros ev [<-|Hev]; [reflexivity|].
      rewrite ?app_nil_r in Hev.
      destruct (Hc ev Hev) as (s & e & [->| ->]); reflexivity.
Qed.

Lemma finalize_shape :
  exists tail res, finalize f = (tail, Ret res) /\
    (forall ev, In ev tail -> ev = EvNewObject \/ ev = EvSetModTime).
Proof.
  unfold finalize. destruct (NewObject f) as [e|obj]; cbn.
  - do 2 eexists. split; [reflexivity|]. cbn. intuition.
  - destruct (PartialUploads (features f)); cbn.
    + destruct (SetModTime obj) as [[]|]; cbn;
        do 2 eexists; (split; [reflexivity|]); cbn; intuition.
    + do 2 eexists. split; [reflexivity|]. cbn. intuition.
Qed.

Lemma settle_shape (err closeErr : option error) :
  exists tail res, settle f err closeErr = (tail, Ret res) /\
    (forall ev, In ev tail -> ev = EvNewObject \/ ev = EvSetModTime) /\
    (forall e, err = Some e -> res = (None, Some e) /\ tail = []) /\
    (forall ce, err = None -> closeErr = Some ce ->
       res = (None, Some (close_failed ce)) /\ tail = []).
Proof.
  unfold settle. destruct err as [e|]; [|destruct closeErr as [ce|]].
  - exists [], (None, Some e). repeat split; intros; try congruence; try contradiction.
  - exists [], (None, Some (close_failed ce)).
    repeat split; intros; try congruence; try contradiction.
  - destruct finalize_shape as (tail & res & E & H).
    exists tail, res. repeat split; intros; try congruence; auto.
Qed.

(** The transfer under its deferred error handler. *)
Lemma guarded_transfer_shape concurrency noseek info chunkWriter :
  let cs := if ChunkSize info >? Size src then Size src else ChunkSize info in
  let Y := OnError info chunkWriter
             (transfer ci f src concurrency sched noseek info chunkWriter) in
  (exists msg, calculateNumChunks (Size src) cs = Panic msg /\ Y = ([], Panic msg)) \/
  (exists n t r,
     calculateNumChunks (Size src) cs = Ret n /\
     spawn {| multiThreadCopyState.size := Size src;
              multiThreadCopyState.partSize := cs;
              multiThreadCopyState.numChunks := n;
              multiThreadCopyState.noSeek := noseek |}
           src chunkWriter sched (Z.to_nat n) 0 [] = (t, r) /\
     let limit := EvSetLimit n (planConcurrency ci info n concurrency) in
     match r with
     | Panic msg => Y = (limit :: t, Panic msg)
     | Ret done =>
       exists tail res,
         settle f (Wait sched done) (cw_Close chunkWriter) = (tail, Ret res) /\
         Y = (limit :: t ++ EvClose (cw_Close chunkWriter) :: tail
                ++ aborts info chunkWriter res,
              Ret res)
     end).
Proof.
  cbv zeta. unfold OnError, transfer.
  destruct (calculateNumChunks (Size src) _) as [n|msg]; [right|left; eauto].
  exists n. cbn.
  match goal with |- context [spawn ?mc _ _ _ _ _ _] =>
    destruct (spawn mc src chunkWriter sched (Z.to_nat n) 0 []) as [t [done|msg]]
  end; exists t; eexists; (split; [reflexivity|]); (split; [reflexivity|]); cbn.
  - destruct (settle_shape (Wait sched done) (cw_Close chunkWriter))
      as (tail & res & E & _).
    exists tail, res. split; [exact E|]. rewrite E. cbn.
    unfold aborts. destruct res as [o [e|]]; cbn.
    + destruct (LeavePartsOnError info); cbn; rewrite ?app_nil_r, <- ?app_assoc;
        reflexivity.
    + rewrite ?app_nil_r. reflexivity.
  - rewrite ?app_nil_r. reflexivity.
Qed.

(** A run is rejected before anything is opened, or fails to open the
    writer, or opens it and runs the transfer under the handler. *)
Lemma multiThreadCopy_shape concurrency :
  let X := multiThreadCopy ci f src concurrency sched in
  (exists e, X = ([], Ret (None, Some e))) \/
  (0 < Size src /\
   exists pre r, X = (EvOpenChunkWriter :: pre, r) /\
     (forall ev, In ev pre -> ev = EvOpenWriterAt) /\
     ((exists e, r = Ret (None, Some e)) \/ (exists msg, r = Panic msg))) \/
  (0 < Size src /\
   exists pre noseek info chunkWriter,
     (forall ev, In ev pre -> ev = EvOpenWriterAt) /\
     let Y := OnError info chunkWriter
                (transfer ci f src concurrency sched noseek info chunkWriter) in
     X = (EvOpenChunkWriter :: pre ++ EvChunkWriter info :: fst Y, snd Y)).
Proof.
  cbv zeta. unfold multiThreadCopy.
  destruct (OpenChunkWriter (features f)) as [answer|];
    [|destruct (OpenWriterAt (features f)) as [openWriterAt|];
      [|left; eexists; reflexivity]];
    (destruct (Z.ltb_spec (Size src) 0) as [Hneg|Hnn]; [left; eexists; reflexivity|]);
    (destruct (Z.eqb_spec (Size src) 0) as [Hz|Hnz]; [left; eexists; reflexivity|]);
    right; (assert (0 < Size src) by lia).
  - destruct answer as [e|[info chunkWriter]]; cbn.
    + left. split; [assumption|]. exists []. eexists. split; [reflexivity|].
      split; [intros ev []|]. left; eauto.
    + right. split; [assumption|]. exists [], false, info, chunkWriter.
      split; [intros ev []|].
      destruct (OnError info chunkWriter _) as [t r]. cbn.
      now rewrite ?app_nil_r.
  - unfold openChunkWriterFromOpenWriterAt.
    destruct openWriterAt as [e|writerAt]; cbn.
    + left. split; [assumption|]. exists [EvOpenWriterAt]. eexists.
      split; [reflexivity|]. split; [intros ev [<-|[]]; reflexivity|]. left; eauto.
    + destruct (calculateNumChunks (Size src) (MultiThreadChunkSize ci)) as [n|msg]; cbn.
      * right. split; [assumption|].
        match goal with |- context [OnError ?i ?w ?b] =>
          exists [EvOpenWriterAt], true, i, w;
          (split; [intros ev [<-|[]]; reflexivity|]);
          destruct (OnError i w b) as [t r]
        end.
        cbn. now rewrite ?app_nil_r.
      * left. split; [assumption|]. exists [EvOpenWriterAt]. eexists.
        split; [reflexivity|]. split; [intros ev [<-|[]]; reflexivity|]. right; eauto.
Qed.

(** Every run of the coordinator has one of the five shapes. *)
Lemma multiThreadCopy_run concurrency :
  run ci f src concurrency sched (multiThreadCopy ci f src concurrency sched).
Proof.
  destruct (multiThreadCopy_shape concurrency)
    as [(e & ->)|[(Hs & pre & r & -> & Hpre & Hr)
                 |(Hs & pre & noseek & info & w & Hpre & ->)]].
  - constructor.
  - now constructor.
  - destruct (guarded_transfer_shape concurrency noseek info w)
      as [(msg & Hn & ->)|(n & t & r & Hn & Hsp & HY)]; cbn [fst snd].
    + now constructor.
    + pose proof (spawn_spec _ _ _ _ _ _ _ Hsp) as [Ht Hdone].
      destruct r as [done|msg]; cbv zeta in HY.
      * destruct HY as (tail & res & Hsettle & ->). cbn [fst snd].
        destruct Hdone as (new & -> & Hd & Hg). cbn [app] in *.
        destruct (settle_shape (Wait sched new) (cw_Close w))
          as (tail' & res' & E & Htail & _).
        rewrite Hsettle in E. injection E as <- <-.
        now apply run_completed with (done := new).
      * rewrite HY. cbn [fst snd]. now constructor.
Qed.

End Runs.

(** ** The coordinator's protocol *)

(** Splits a membership in a trace along its appends. *)
Ltac in_trace H :=
  repeat match type of H with
         | In _ (_ :: _) => destruct H as [H|H]
         | In _ (_ ++ _) => apply in_app_or in H; destruct H as [H|H]
         | In _ [] => destruct H
         | In _ (aborts _ _ ?res) =>
           unfold aborts in H; destruct (snd res);
           [match type of H with
            | context [LeavePartsOnError ?i] => destruct (LeavePartsOnError i)
            end|]
         end.

(** Discards a membership that the kind of the event rules out. *)
Ltac wrong_kind H :=
  solve [ discriminate H
        | match goal with
          | Hk : forall ev, In ev ?l -> _ |- _ =>
            match type of H with
            | In _ l => apply Hk in H; solve [discriminate H | destruct H; discriminate]
            end
          end ].

Section Protocol.

Variables (ci : ConfigInfo) (f : Fs) (src : SrcObject) (concurrency : Z)
          (sched : Schedule).

Local Notation "'X'" := (multiThreadCopy ci f src concurrency sched).

(** C9: for every source whose declared size is negative (unknown) or
    zero, multiThreadCopy returns a non-nil error (and no object) without
    opening the chunk writer: it makes no call at all to the destination. *)
Theorem invalid_size_rejected :
  Size src <= 0 ->
  exists err, multiThreadCopy ci f src concurrency sched = ([], Ret (None, Some err)).
Proof.
  intros Hs. unfold multiThreadCopy.
  destruct (OpenChunkWriter (features f));
    [|destruct (OpenWriterAt (features f)); [|eexists; reflexivity]];
    (destruct (Z.ltb_spec (Size src) 0); [eexists; reflexivity|]);
    (destruct (Z.eqb_spec (Size src) 0); [eexists; reflexivity|lia]).
Qed.




(** [g.Wait] reports an error exactly when a goroutine returned one,
    and then it reports the error of one of them. *)
Lemma in_failures done e :
  In e (failures done) <-> exists c, In (c, Some e) done.
Proof.
  unfold failures. rewrite in_flat_map. split.
  - intros ([c [e'|]] & Hin & He); cbn in He; [|contradiction].
    destruct He as [<-|[]]. eauto.
  - intros (c & Hin). exists (c, Some e). split; [assumption|now left].
Qed.

Lemma Wait_Some done e :
  Wait sched done = Some e -> exists c, In (c, Some e) done.
Proof.
  unfold Wait. intros H. apply nth_error_In in H. now apply in_failures.
Qed.

Lemma Wait_None done :
  (forall c e, ~ In (c, Some e) done) -> Wait sched done = None.
Proof.
  intros H. unfold Wait.
  destruct (failures done) as [|e l] eqn:E; [now destruct (Nat.modulo _ _)|].
  exfalso. destruct (proj1 (in_failures done e)) as (c & Hc).
  - rewrite E. now left.
  - exact (H c e Hc).
Qed.

Lemma Wait_fails done c e :
  In (c, Some e) done -> exists e', Wait sched done = Some e'.
Proof.
  intros H. unfold Wait.
  assert (Hin : In e (failures done)) by (apply in_failures; eauto).
  destruct (failures done) as [|e0 l] eqn:E; [destruct Hin|].
  destruct (nth_error (e0 :: l) (Nat.modulo (wait_pick sched) (List.length (e0 :: l))))
    as [e'|] eqn:N; [eauto|].
  apply nth_error_None in N.
  pose proof (Nat.mod_upper_bound (wait_pick sched) (List.length (e0 :: l))) as B.
  cbn [List.length] in *. lia.
Qed.

Lemma count_app kind (l1 l2 : list event) :
  count kind (l1 ++ l2) = (count kind l1 + count kind l2)%nat.
Proof. unfold count. now rewrite filter_app, length_app. Qed.

Lemma count_none kind (l : list event) :
  (forall ev, In ev l -> kind ev = false) -> count kind l = 0%nat.
Proof.
  unfold count. induction l as [|a l IH]; intros H; [reflexivity|].
  cbn. rewrite (H a) by now left. apply IH. intros ev Hev. apply H. now right.
Qed.

(** C7: whenever every chunk copy succeeds but the chunk writer's Close
    returns an error, multiThreadCopy returns no object and a non-nil
    error wrapping the close error. *)
Theorem close_error_fails_transfer closeErr :
  In (EvClose (Some closeErr)) (fst X) ->
  (forall chunk err, ~ In (EvDone chunk (Some err)) (fst X)) ->
  snd X = Ret (None, Some (close_failed closeErr)).
Proof.
  generalize (multiThreadCopy_run ci f src sched concurrency).
  generalize (multiThreadCopy ci f src concurrency sched). intros Y R.
  destruct R as [e|pre r Hs Hpre Hr|pre info' msg Hs Hpre Hn
                |pre info' n t msg Hs Hpre Hn Ht
                |pre info' w n t done tail res' Hs Hpre Hn Ht Hd Hg Hsettle Htail];
    cbn [fst snd]; intros Hc Hok; in_trace Hc; try wrong_kind Hc.
  injection Hc as Hc. rewrite Hc in Hsettle.
  rewrite Wait_None in Hsettle.
  - cbn in Hsettle. now injection Hsettle as _ <-.
  - intros c e Hin. apply Hd in Hin. apply (Hok c e).
    right. apply in_or_app. right. right. right. apply in_or_app. now left.
Qed.

(** C8: for every failing transfer (a chunk error or a close error),
    multiThreadCopy invokes the chunk writer's Abort exactly once when
    the writer Info's LeavePartsOnError flag is false and zero times when
    it is true, and the error it returns is the triggering error -- the
    error of a failed chunk copy or, when no chunk failed, the wrapped
    close error -- whatever Abort itself returns. *)
Theorem abort_once_and_error_kept info res :
  In (EvChunkWriter info) (fst X) -> snd X = Ret res ->
  (exists chunk e, In (EvDone chunk (Some e)) (fst X)) \/
  (exists ce, In (EvClose (Some ce)) (fst X)) ->
  count is_Abort (fst X) = (if LeavePartsOnError info then 0 else 1)%nat /\
  exists err,
    res = (None, Some err) /\
    ((exists chunk, In (EvDone chunk (Some err)) (fst X)) \/
     ((forall chunk e, ~ In (EvDone chunk (Some e)) (fst X)) /\
      exists ce, In (EvClose (Some ce)) (fst X) /\ err = close_failed ce)).
Proof.
  generalize (multiThreadCopy_run ci f src sched concurrency).
  generalize (multiThreadCopy ci f src concurrency sched). intros Y R.
  destruct R as [e|pre r Hs Hpre Hr|pre info' msg Hs Hpre Hn
                |pre info' n t msg Hs Hpre Hn Ht
                |pre info' w n t done tail res' Hs Hpre Hn Ht Hd Hg Hsettle Htail];
    cbn [fst snd]; intros Hi Hres Hfail; try discriminate Hres;
    try solve [in_trace Hi; wrong_kind Hi].
  injection Hres as ->.
  assert (Hinfo : info' = info).
  { in_trace Hi; try wrong_kind Hi. now injection Hi. }
  subst info'.
  assert (Ht_in : forall ev, In ev t ->
    In ev (EvOpenChunkWriter :: pre ++ EvChunkWriter info
             :: EvSetLimit n (planConcurrency ci info n concurrency)
             :: t ++ EvClose (cw_Close w) :: tail ++ aborts info w res)).
  { intros ev H. right. apply in_or_app. right. right. right.
    apply in_or_app. now left. }
  assert (Hclose_in :
    In (EvClose (cw_Close w))
       (EvOpenChunkWriter :: pre ++ EvChunkWriter info
          :: EvSetLimit n (planConcurrency ci info n concurrency)
          :: t ++ EvClose (cw_Close w) :: tail ++ aborts info w res)).
  { right. apply in_or_app. right. right. right. apply in_or_app. right. now left. }
  assert (Hchunk : forall c e,
    In (EvDone c (Some e))
       (EvOpenChunkWriter :: pre ++ EvChunkWriter info
          :: EvSetLimit n (planConcurrency ci info n concurrency)
          :: t ++ EvClose (cw_Close w) :: tail ++ aborts info w res) ->
    In (c, Some e) done).
  { intros c e H. apply Hd. in_trace H; try wrong_kind H. exact H. }
  destruct (settle_shape f (Wait sched done) (cw_Close w))
    as (tail' & res' & E & _ & Herr & Hcl).
  rewrite Hsettle in E. injection E as <- <-.
  assert (Hres : exists err, res = (None, Some err) /\ tail = [] /\
    ((exists chunk, In (chunk, Some err) done) \/
     ((forall chunk e, ~ In (chunk, Some e) done) /\
      exists ce, cw_Close w = Some ce /\ err = close_failed ce))).
  { destruct (Wait sched done) as [e|] eqn:W.
    - destruct (Herr e eq_refl) as [-> ->]. exists e. repeat split.
      left. now apply Wait_Some.
    - assert (Hnone : forall chunk e, ~ In (chunk, Some e) done).
      { intros c e Hin. destruct (Wait_fails _ _ _ Hin) as (e' & He').
        congruence. }
      destruct Hfail as [(c & e & H)|(ce & H)].
      + exfalso. exact (Hnone c e (Hchunk c e H)).
      + in_trace H; try wrong_kind H. injection H as H.
        destruct (Hcl ce eq_refl H) as [-> ->].
        exists (close_failed ce). repeat split. right. split; [exact Hnone|eauto]. }
  destruct Hres as (err & -> & -> & Hwhich). split.
  - cbn [app]. change (EvOpenChunkWriter :: ?l) with ([EvOpenChunkWriter] ++ l).
    rewrite !count_app.
    rewrite (count_none is_Abort pre)
      by (intros ev H; now rewrite (Hpre _ H)).
    change (EvChunkWriter info :: EvSetLimit ?a ?b :: ?l)
      with ([EvChunkWriter info; EvSetLimit a b] ++ l).
    rewrite !count_app.
    rewrite (count_none is_Abort t)
      by (intros ev H; apply Ht in H; now destruct ev).
    unfold aborts. cbn [snd]. destruct (LeavePartsOnError info); reflexivity.
  - exists err. split; [reflexivity|].
    destruct Hwhich as [(c & Hc)|(Hnone & ce & Hce & ->)].
    + left. exists c. apply Ht_in. now apply Hd.
    + right. split.
      * intros c e H. exact (Hnone c e (Hchunk c e H)).
      * exists ce. split; [|reflexivity]. rewrite <- Hce. exact Hclose_in.
Qed.

Lemma calculateNumChunks_panic size chunkSize msg :
  calculateNumChunks size chunkSize = Panic msg ->
  chunkSize = 0 /\ msg = divide_by_zero.
Proof.
  unfold calculateNumChunks, go_div, go_rem, go_bind.
  destruct (Z.eqb_spec chunkSize 0); [|discriminate].
  intros [= <-]. now split.
Qed.

Lemma calculateNumChunks_zero size : calculateNumChunks size 0 = Panic divide_by_zero.
Proof. reflexivity. Qed.

(** C10: calculateNumChunks is sure to return under the precondition
    chunkSize > 0 only -- its division and modulus are unguarded and
    panic on a zero divisor --, and the coordinator's cap never raises a
    zero or negative chunk size: when the writer's Info reports
    ChunkSize <= 0 for a source of positive size, that chunk size is the
    divisor the coordinator divides by; the run panics when it is zero
    and sizes its pool by the quotient when it is negative. *)
Theorem nonpositive_chunk_size_reaches_division info :
  In (EvChunkWriter info) (fst X) -> ChunkSize info <= 0 ->
  (forall size chunkSize, 0 < chunkSize ->
     exists n, calculateNumChunks size chunkSize = Ret n) /\
  (forall size chunkSize msg,
     calculateNumChunks size chunkSize = Panic msg <->
     chunkSize = 0 /\ msg = divide_by_zero) /\
  0 < Size src /\
  (if ChunkSize info >? Size src then Size src else ChunkSize info) = ChunkSize info /\
  (ChunkSize info = 0 -> snd X = Panic divide_by_zero) /\
  (ChunkSize info < 0 ->
     exists n c, calculateNumChunks (Size src) (ChunkSize info) = Ret n /\
                 In (EvSetLimit n c) (fst X)).
Proof.
  intros Hi Hcs. split; [|split].
  { intros size chunkSize Hc.
    destruct (calculateNumChunks size chunkSize) as [n|msg] eqn:E; [eauto|].
    apply calculateNumChunks_panic in E. lia. }
  { intros size chunkSize msg. split; [apply calculateNumChunks_panic|].
    intros [-> ->]. reflexivity. }
  revert Hi.
  generalize (multiThreadCopy_run ci f src sched concurrency).
  generalize (multiThreadCopy ci f src concurrency sched). intros Y R.
  destruct R as [e|pre r Hs Hpre Hr|pre info' msg Hs Hpre Hn
                |pre info' n t msg Hs Hpre Hn Ht
                |pre info' w n t done tail res' Hs Hpre Hn Ht Hd Hg Hsettle Htail];
    cbn [fst snd]; intros Hi; in_trace Hi; try wrong_kind Hi;
    injection Hi as ->;
    (split; [exact Hs|]);
    (assert (Hcap : (if ChunkSize info >? Size src then Size src else ChunkSize info)
                    = ChunkSize info)
       by (destruct (Z.gtb_spec (ChunkSize info) (Size src)); lia));
    (split; [exact Hcap|]); rewrite Hcap in Hn; split.
  - intros _. apply calculateNumChunks_panic in Hn as [_ ->]. reflexivity.
  - intros Hneg. apply calculateNumChunks_panic in Hn. lia.
  - intros H0. rewrite H0 in Hn. discriminate Hn.
  - intros _. do 2 eexists. split; [exact Hn|].
    right. apply in_or_app. right. right. now left.
  - intros H0. rewrite H0 in Hn. discriminate Hn.
  - intros _. do 2 eexists. split; [exact Hn|].
    right. apply in_or_app. right. right. now left.
Qed.

(** The transfer only asks the writer to write chunks and to close, and
    the destination for the new object. *)
Lemma copyChunk_ext mc chunk w w' :
  cw_WriteChunk w = cw_WriteChunk w' ->
  multiThreadCopyState.copyChunk mc src chunk w
  = multiThreadCopyState.copyChunk mc src chunk w'.
Proof. intros E. unfold multiThreadCopyState.copyChunk. now rewrite E. Qed.

Lemma spawn_ext mc w w' n :
  cw_WriteChunk w = cw_WriteChunk w' ->
  forall chunk done,
    spawn mc src w sched n chunk done = spawn mc src w' sched n chunk done.
Proof.
  intros E. induction n as [|n IH]; intros chunk done; cbn [spawn]; [reflexivity|].
  destruct (gCtx_Err sched done chunk); [reflexivity|].
  rewrite (copyChunk_ext mc chunk w w' E).
  unfold bind at 1 3.
  destruct (multiThreadCopyState.copyChunk mc src chunk w') as [t [err|msg]];
    cbn; now rewrite ?IH.
Qed.

Lemma transfer_ext f1 f2 noseek info w w' :
  cw_WriteChunk w = cw_WriteChunk w' -> cw_Close w = cw_Close w' ->
  NewObject f1 = NewObject f2 ->
  PartialUploads (features f1) = PartialUploads (features f2) ->
  transfer ci f1 src concurrency sched noseek info w
  = transfer ci f2 src concurrency sched noseek info w'.
Proof.
  intros Ew Ec En Ep. unfold transfer.
  destruct (calculateNumChunks (Size src) _) as [n|msg]; [|reflexivity].
  cbn. rewrite (spawn_ext _ w w' _ Ew), Ec.
  replace (settle f2) with (settle f1); [reflexivity|].
  unfold settle, finalize. now rewrite En, Ep.
Qed.

Lemma bind_result {A B : Type} (m : M A) (k : A -> M B) :
  snd (bind m k) = match snd m with
                   | Ret a => snd (k a)
                   | Panic msg => Panic msg
                   end.
Proof. destruct m as [t [a|msg]]; cbn; [now destruct (k a)|reflexivity]. Qed.

Lemma OnError_result {A : Type} info w (body : M (A * option error)) :
  snd (OnError info w body) = snd body.
Proof.
  unfold OnError. destruct body as [t [[a [e|]]|msg]]; cbn; [|reflexivity..].
  now destruct (LeavePartsOnError info).
Qed.

(** What Abort answers has no part in what multiThreadCopy returns: two
    destinations that differ in nothing else yield the same result. *)
Lemma abort_answer_irrelevant a lookup a' lookup' :
  snd (multiThreadCopy ci (abort_answers a lookup f) src concurrency sched)
  = snd (multiThreadCopy ci (abort_answers a' lookup' f) src concurrency sched).
Proof.
  unfold multiThreadCopy, abort_answers, openChunkWriterFromOpenWriterAt;
    cbn [features OpenChunkWriter OpenWriterAt].
  destruct (OpenChunkWriter (features f)) as [[e|[info w]]|];
    [| |destruct (OpenWriterAt (features f)) as [[e|writerAt]|]; [| |reflexivity]];
    (destruct (Size src <? 0); [reflexivity|]);
    (destruct (Size src =? 0); [reflexivity|]);
    repeat (rewrite bind_result; cbn [emit ret lift snd fst]);
    try reflexivity.
  - rewrite !OnError_result. now apply f_equal, transfer_ext.
  - destruct (calculateNumChunks (Size src) (MultiThreadChunkSize ci)) as [n|msg];
      [|reflexivity].
    repeat (rewrite bind_result; cbn [emit ret lift snd fst]).
    rewrite !OnError_result. now apply f_equal, transfer_ext.
Qed.

End Protocol.

(** ** The adapter *)

Section WriteChunk.

Import writerAtChunkWriter.

Context {St Reader : Type}.
Variable io_Copy : Writer -> Reader -> St -> St * (Z * option error).
Variable Flush : Writer -> St -> St * option error.

(** C4: for every chunk index of the adapted chunk writer, WriteChunk
    expects chunkSize bytes for every chunk except the last, and
    size mod chunkSize bytes for the last chunk when that remainder is
    not zero; it returns successfully, with that byte count, only when
    the number of bytes copied from the reader equals the expected
    count, and it returns an error whenever the copied count differs. *)
Theorem WriteChunk_checks_count (w : t) (chunkNumber : Z) (reader : Reader) (st : St) :
  chunkSize w <> 0 -> Int64.min_int < chunks w <= Int64.max_int ->
  let remainder := Z.rem (size w) (chunkSize w) in
  let expected :=
    if (chunkNumber =? chunks w - 1) && negb (remainder =? 0)
    then remainder else chunkSize w in
  let copied := fst (snd (io_Copy (writer w chunkNumber) reader st)) in
  (0 <= size w -> 0 < chunkSize w -> remainder = size w mod chunkSize w) /\
  bytesToWrite w chunkNumber = Ret expected /\
  exists st' n err,
    WriteChunk io_Copy Flush w chunkNumber reader st = Ret (st', (n, err)) /\
    (err = None -> n = expected /\ copied = expected) /\
    (copied <> expected -> n = -1 /\ err <> None).
Proof.
  intros Hc Hk remainder expected copied.
  split; [intros; apply Z.rem_mod_nonneg; lia|].
  assert (Hb : bytesToWrite w chunkNumber = Ret expected).
  { unfold bytesToWrite, go_rem, go_bind, expected, remainder.
    rewrite wrap_in_range
      by (unfold Int64.in_range, Int64.min_int, Int64.max_int in *; lia).
    destruct (chunkNumber =? chunks w - 1); [|reflexivity].
    destruct (Z.eqb_spec (chunkSize w) 0); [contradiction|].
    cbn [andb]. now destruct (negb _). }
  split; [exact Hb|].
  unfold WriteChunk. rewrite Hb. cbn [go_bind]. subst copied.
  destruct (io_Copy (writer w chunkNumber) reader st) as [st1 [n [e|]]]; cbn [fst snd].
  - exists st1, (-1), (Some e). repeat split; try discriminate.
  - destruct (Z.eqb_spec n expected) as [->|Hne]; cbn [negb].
    + destruct (writer w chunkNumber) as [o|o sz] eqn:Ew.
      * exists st1, expected, None. repeat split; congruence.
      * destruct (Flush (buffered o sz) st1) as [st2 [er2|]].
        -- exists st2, (-1), (Some flush_failed). repeat split; congruence.
        -- exists st2, expected, None. repeat split; congruence.
    + exists st1, (-1), (Some (wrongSize expected chunkNumber n)).
      repeat split; congruence.
Qed.

End WriteChunk.

Section OffsetWriter.

Context {S : Type} `{WriterAt S}.

(** One write through a recording destination. *)
Lemma Write_recorder (o : offsetWriter.t) (p : list Byte.byte) (r : recorder S) :
  offsetWriter.Write o p r =
  let '(s', (n, e)) := WriteAt (inner r) p (offsetWriter.off o) in
  (({| offsetWriter.off := Int64.wrap (offsetWriter.off o + n) |},
    {| inner := s';
       calls := calls r ++ [{| call_off := offsetWriter.off o;
                               call_data := p; call_n := n |}] |}),
   (n, e)).
Proof.
  unfold offsetWriter.Write. change (WriteAt r p (offsetWriter.off o))
    with (recorder_WriterAt r p (offsetWriter.off o)).
  unfold recorder_WriterAt.
  now destruct (WriteAt (inner r) p (offsetWriter.off o)) as [s' [n e]].
Qed.

(** The calls a sequence of writes makes form a chain from the cursor
    it starts with to the cursor it ends with, one call per write. *)
Lemma writeAll_chain (ps : list (list Byte.byte)) :
  forall (o : offsetWriter.t) (r : recorder S),
    let run := offsetWriter.writeAll o ps r in
    exists new,
      calls (snd run) = calls r ++ new /\
      map call_data new = ps /\
      chain (offsetWriter.off o) new (offsetWriter.off (fst run)).
Proof.
  induction ps as [|p ps IH]; intros o r; cbn [offsetWriter.writeAll]; cbv zeta.
  - exists []. cbn. now rewrite app_nil_r.
  - rewrite Write_recorder.
    destruct (WriteAt (inner r) p (offsetWriter.off o)) as [s' [n e]]. cbn [fst snd].
    match goal with |- context [offsetWriter.writeAll ?o' ps ?r'] =>
      destruct (IH o' r') as (new & E & D & C) end.
    cbn [calls offsetWriter.off] in *.
    eexists (_ :: new). rewrite E, <- app_assoc. cbn.
    split; [reflexivity|]. split; [now rewrite D|]. split; [reflexivity|exact C].
Qed.

(** Without overflow, a chain places each call at the start plus the
    bytes reported before it. *)
Lemma chain_exact (cs : list call) :
  forall start final,
    Int64.in_range start ->
    (forall c, In c cs -> 0 <= call_n c) ->
    start + total cs <= Int64.max_int ->
    chain start cs final ->
    final = start + total cs /\
    (forall j c, nth_error cs j = Some c ->
       call_off c = start + total (firstn j cs)) /\
    (forall j, 0 <= total (firstn j cs) <= total cs).
Proof.
  induction cs as [|c cs IH]; intros start final Hs Hn Hmax; cbn [chain total] in *.
  - intros ->. split; [lia|]. split.
    + intros [|j] c E; discriminate E.
    + intros [|j]; cbn; lia.
  - intros [Hoff Hc].
    assert (H0 : 0 <= call_n c) by (apply Hn; now left).
    assert (Ht : 0 <= total cs).
    { clear - Hn. induction cs as [|d cs IH]; cbn; [lia|].
      assert (0 <= call_n d) by (apply Hn; right; now left).
      assert (0 <= total cs); [|lia].
      apply IH. intros x [Hx|Hx]; apply Hn; [now left|right; now right]. }
    rewrite wrap_in_range in Hc
      by (unfold Int64.in_range, Int64.min_int, Int64.max_int in *; lia).
    destruct (IH (start + call_n c) final) as (F & O & T); try assumption.
    + unfold Int64.in_range, Int64.min_int, Int64.max_int in *; lia.
    + intros x Hx. apply Hn. now right.
    + lia.
    + split; [lia|]. split.
      * intros [|j] x E; cbn in E |- *.
        -- injection E as <-. lia.
        -- rewrite (O j x E). lia.
      * intros [|j]; cbn; [lia|]. specialize (T j). lia.
Qed.

(** C5: for every sequence of Write calls on the offset writer that
    WriteChunk creates for chunk index -- based at index*chunkSize --,
    each Write lands at the absolute offset index*chunkSize + localOffset,
    where localOffset is the number of bytes reported written by all the
    previous Write calls; the cursor advances by the reported byte count
    and never moves backwards.  The destination is assumed to honour
    io.WriterAt (it reports no negative count) and to keep the bytes at
    offsets an int64 can hold. *)
Theorem offset_writes_land (w : writerAtChunkWriter.t) (index : Z)
    (ps : list (list Byte.byte)) (s : S) :
  let base := index * writerAtChunkWriter.chunkSize w in
  let o := underlying (writerAtChunkWriter.writer w index) in
  let run := offsetWriter.writeAll o ps {| inner := s; calls := [] |} in
  let log := calls (snd run) in
  let cursor j := base + total (firstn j log) in
  Int64.in_range base ->
  (forall c, In c log -> 0 <= call_n c) ->
  base + total log <= Int64.max_int ->
  offsetWriter.off o = base /\
  map call_data log = ps /\
  (forall j c, nth_error log j = Some c ->
     call_off c = cursor j /\
     cursor (Datatypes.S j) = cursor j + call_n c /\
     cursor j <= cursor (Datatypes.S j)) /\
  offsetWriter.off (fst run) = cursor (List.length log).
Proof.
  intros base o run log cursor Hb Hn Hmax.
  assert (Ho : offsetWriter.off o = base).
  { subst o base. unfold writerAtChunkWriter.writer.
    destruct (_ >? 0); cbn; now apply wrap_in_range. }
  destruct (writeAll_chain ps o {| inner := s; calls := [] |}) as (new & E & D & C).
  fold run in E, C. fold log in E. cbn [calls app] in E. rewrite <- E in *.
  rewrite Ho in C.
  destruct (chain_exact log base _ Hb Hn Hmax C) as (F & O & T).
  split; [exact Ho|]. split; [exact D|]. split.
  - intros j c Ej. split; [now apply O|].
    assert (Hs : total (firstn (Datatypes.S j) log) = total (firstn j log) + call_n c).
    { clear - Ej. revert j Ej. induction log as [|d l IH]; intros [|j] Ej;
        try discriminate Ej; cbn in *.
      - injection Ej as <-. lia.
      - rewrite (IH j Ej). lia. }
    subst cursor. cbn beta. rewrite Hs.
    assert (0 <= call_n c) by (apply Hn; eapply nth_error_In; eassumption).
    lia.
  - subst cursor. cbn beta. now rewrite firstn_all.
Qed.

End OffsetWriter.

(** ** The properties at concrete inputs *)

(** Finds an event in a concrete trace. *)
Ltac here := repeat (first [left; reflexivity | right]).

Section Instances.

Import Examples.



(** C6 as stated fails where a chunk copy fails: chunk 2 of 5 returns an
    error and Close is invoked all the same. *)
Lemma close_invoked_after_chunk_error :
  ~ (forall ci f src concurrency sched chunk err closeErr,
       In (EvDone chunk (Some err)) (fst (multiThreadCopy ci f src concurrency sched)) ->
       ~ In (EvClose closeErr) (fst (multiThreadCopy ci f src concurrency sched))).
Proof.
  intros H.
  apply (H (config 4 true)
           (native (info 64 2 false) (writer 2 None (Some (backendError 9))))
           (source 300) 4 sequential 2 write_failed None);
    vm_compute; here.
Qed.

(** C6, the run at the failing input: 300 bytes in 5 chunks of 64 through
    a pool in which each chunk copy has returned before the next is
    started; the writer fails on chunk 2.  The failed chunk is followed by
    Close -- the commit --, then by Abort, and the chunk's error is
    returned: Close is invoked although a chunk returned an error. *)
Theorem close_commits_failed_transfer :
  multiThreadCopy (config 4 true)
    (native (info 64 2 false) (writer 2 None (Some (backendError 9))))
    (source 300) 4 sequential
  = ([EvOpenChunkWriter; EvChunkWriter (info 64 2 false); EvSetLimit 5 4;
      EvGo 0; EvOpen 0 0 63; EvWriteChunk 0; EvDone 0 None;
      EvGo 1; EvOpen 1 64 127; EvWriteChunk 1; EvDone 1 None;
      EvGo 2; EvOpen 2 128 191; EvWriteChunk 2; EvDone 2 (Some write_failed);
      EvClose None; EvAbort (Some (backendError 9))],
     Ret (None, Some write_failed)).
Proof. reflexivity. Qed.

Lemma close_error_fails_transfer_witness :
  let f := native (info 64 2 false) (writer (-1) (Some (backendError 5)) None) in
  let X := multiThreadCopy (config 4 true) f (source 150) 4 parallel in
  (In (EvClose (Some (backendError 5))) (fst X) /\
   (forall chunk err, ~ In (EvDone chunk (Some err)) (fst X))) /\
  snd X = Ret (None, Some (close_failed (backendError 5))).
Proof.
  cbv zeta.
  assert (H : In (EvClose (Some (backendError 5)))
                (fst (multiThreadCopy (config 4 true)
                        (native (info 64 2 false)
                           (writer (-1) (Some (backendError 5)) None))
                        (source 150) 4 parallel)) /\
              (forall chunk err,
                 ~ In (EvDone chunk (Some err))
                     (fst (multiThreadCopy (config 4 true)
                             (native (info 64 2 false)
                                (writer (-1) (Some (backendError 5)) None))
                             (source 150) 4 parallel)))).
  { split; [vm_compute; here|].
    intros chunk err. vm_compute. intuition discriminate. }
  split; [exact H|].
  apply (close_error_fails_transfer (config 4 true)
           (native (info 64 2 false) (writer (-1) (Some (backendError 5)) None))
           (source 150) 4 parallel (backendError 5)); apply H.
Defined.

(** Chunk 2 of 5 fails and Abort fails too: Abort is invoked once and
    the error of the chunk is returned. *)
Lemma abort_once_and_error_kept_witness :
  let i := info 64 2 false in
  let f := native i (writer 2 None (Some (backendError 9))) in
  let X := multiThreadCopy (config 4 true) f (source 300) 4 sequential in
  (In (EvChunkWriter i) (fst X) /\ snd X = Ret (None, Some write_failed) /\
   ((exists chunk e, In (EvDone chunk (Some e)) (fst X)) \/
    (exists ce, In (EvClose (Some ce)) (fst X)))) /\
  In (EvAbort (Some (backendError 9))) (fst X) /\
  count is_Abort (fst X) = 1%nat.
Proof.
  cbv zeta.
  assert (H : In (EvChunkWriter (info 64 2 false))
                (fst (multiThreadCopy (config 4 true)
                        (native (info 64 2 false)
                           (writer 2 None (Some (backendError 9))))
                        (source 300) 4 sequential)) /\
              snd (multiThreadCopy (config 4 true)
                     (native (info 64 2 false)
                        (writer 2 None (Some (backendError 9))))
                     (source 300) 4 sequential)
              = Ret (None, Some write_failed) /\
              ((exists chunk e,
                  In (EvDone chunk (Some e))
                    (fst (multiThreadCopy (config 4 true)
                            (native (info 64 2 false)
                               (writer 2 None (Some (backendError 9))))
                            (source 300) 4 sequential))) \/
               (exists ce,
                  In (EvClose (Some ce))
                    (fst (multiThreadCopy (config 4 true)
                            (native (info 64 2 false)
                               (writer 2 None (Some (backendError 9))))
                            (source 300) 4 sequential))))).
  { split; [vm_compute; here|]. split; [reflexivity|].
    left. exists 2, write_failed. vm_compute; here. }
  split; [exact H|]. split; [vm_compute; here|].
  apply (abort_once_and_error_kept (config 4 true)
           (native (info 64 2 false) (writer 2 None (Some (backendError 9))))
           (source 300) 4 sequential (info 64 2 false) (None, Some write_failed));
    apply H.
Defined.

Lemma invalid_size_rejected_witness :
  let f := native (info 64 2 false) (writer (-1) None None) in
  Size (source 0) <= 0 /\
  exists err,
    multiThreadCopy (config 4 true) f (source 0) 4 sequential
    = ([], Ret (None, Some err)).
Proof.
  cbv zeta. split; [cbn; lia|].
  apply (invalid_size_rejected (config 4 true)
           (native (info 64 2 false) (writer (-1) None None))
           (source 0) 4 sequential).
  cbn; lia.
Defined.

(** A backend that reports a chunk size of zero makes the coordinator
    divide by zero. *)
Lemma nonpositive_chunk_size_reaches_division_witness :
  let i := info 0 2 false in
  let f := native i (writer (-1) None None) in
  let X := multiThreadCopy (config 4 true) f (source 300) 4 sequential in
  (In (EvChunkWriter i) (fst X) /\ ChunkSize i <= 0) /\
  (ChunkSize i = 0 -> snd X = Panic divide_by_zero).
Proof.
  cbv zeta.
  assert (H : In (EvChunkWriter (info 0 2 false))
                (fst (multiThreadCopy (config 4 true)
                        (native (info 0 2 false) (writer (-1) None None))
                        (source 300) 4 sequential)) /\
              ChunkSize (info 0 2 false) <= 0).
  { split; [vm_compute; here|cbn; lia]. }
  split; [exact H|].
  apply (nonpositive_chunk_size_reaches_division (config 4 true)
           (native (info 0 2 false) (writer (-1) None None))
           (source 300) 4 sequential (info 0 2 false)); apply H.
Defined.

(** The last chunk of 150 bytes in chunks of 64 holds 22 bytes. *)
Lemma WriteChunk_checks_count_witness :
  (writerAtChunkWriter.chunkSize adapted <> 0 /\
   Int64.min_int < writerAtChunkWriter.chunks adapted <= Int64.max_int) /\
  writerAtChunkWriter.bytesToWrite adapted 2 = Ret 22 /\
  writerAtChunkWriter.WriteChunk (copies 22) flushes adapted 2 tt tt
  = Ret (tt, (22, None)) /\
  writerAtChunkWriter.WriteChunk (copies 21) flushes adapted 2 tt tt
  = Ret (tt, (-1, Some (wrongSize 22 2 21))).
Proof.
  assert (H : writerAtChunkWriter.chunkSize adapted <> 0 /\
              Int64.min_int < writerAtChunkWriter.chunks adapted <= Int64.max_int).
  { unfold Int64.min_int, Int64.max_int. cbn. lia. }
  split; [exact H|].
  pose proof (WriteChunk_checks_count (copies 22) flushes adapted 2 tt tt
                (proj1 H) (proj2 H)) as (_ & Hb & _).
  split; [exact Hb|]. split; reflexivity.
Defined.

(** Two writes of chunk 1 into an empty memory land at 64 and 66. *)
Lemma offset_writes_land_witness :
  let ps := [[Byte.x61; Byte.x62]; [Byte.x63]] in
  let base := 1 * writerAtChunkWriter.chunkSize adapted in
  let o := underlying (writerAtChunkWriter.writer adapted 1) in
  let run := offsetWriter.writeAll o ps {| inner := empty; calls := [] |} in
  let log := calls (snd run) in
  (Int64.in_range base /\ (forall c, In c log -> 0 <= call_n c) /\
   base + total log <= Int64.max_int) /\
  (offsetWriter.off o = base /\ map call_data log = ps) /\
  map call_off log = [64; 66] /\
  offsetWriter.off (fst run) = 67 /\
  inner (snd run) 64 = Some Byte.x61 /\
  inner (snd run) 66 = Some Byte.x63 /\
  inner (snd run) 63 = None.
Proof.
  cbv zeta.
  assert (H : Int64.in_range (1 * writerAtChunkWriter.chunkSize adapted) /\
              (forall c,
                 In c (calls (snd (offsetWriter.writeAll
                                     (underlying (writerAtChunkWriter.writer adapted 1))
                                     [[Byte.x61; Byte.x62]; [Byte.x63]]
                                     {| inner := empty; calls := [] |}))) ->
                 0 <= call_n c) /\
              1 * writerAtChunkWriter.chunkSize adapted
              + total (calls (snd (offsetWriter.writeAll
                                     (underlying (writerAtChunkWriter.writer adapted 1))
                                     [[Byte.x61; Byte.x62]; [Byte.x63]]
                                     {| inner := empty; calls := [] |})))
              <= Int64.max_int).
  { split; [|split].
    - unfold Int64.in_range, Int64.min_int, Int64.max_int. cbn. lia.
    - intros c Hc. vm_compute in Hc. destruct Hc as [<-|[<-|[]]]; cbn; lia.
    - vm_compute. discriminate. }
  split; [exact H|].
  pose proof (offset_writes_land adapted 1 [[Byte.x61; Byte.x62]; [Byte.x63]] empty
                (proj1 H) (proj1 (proj2 H)) (proj2 (proj2 H))) as (Ho & Hd & _ & _).
  split; [exact (conj Ho Hd)|]. repeat split.
Defined.

(** The examples of the specification. *)

Example three_chunks_of_150 :
  calculateNumChunks 150 64 = Ret 3 /\
  map (multiThreadCopyState.chunkRange
         {| multiThreadCopyState.size := 150;
            multiThreadCopyState.partSize := 64;
            multiThreadCopyState.numChunks := 3;
            multiThreadCopyState.noSeek := false |}) [0; 1; 2]
  = [Some (0, 64); Some (64, 128); Some (128, 150)].
Proof. split; reflexivity. Qed.

(** Streams set explicitly, a backend that asks for no more than one:
    the request is clamped to the number of chunks. *)
Example clamped_to_one_chunk :
  planConcurrency (config 8 true) (info 64 1 false) 1 8 = 1.
Proof. reflexivity. Qed.

(** Streams not set explicitly: the backend's preference is used. *)
Example backend_preference_used :
  planConcurrency (config 4 false) (info 64 8 false) 10 4 = 8.
Proof. reflexivity. Qed.

(** 1000 bytes in chunks of 300: the writer expects 300, 300, 300 and
    100 bytes. *)
Example expected_counts_add_up :
  let w := {| writerAtChunkWriter.size := 1000;
              writerAtChunkWriter.chunkSize := 300;
              writerAtChunkWriter.chunks := 4;
              writerAtChunkWriter.writeBufferSize := 0 |} in
  map (writerAtChunkWriter.bytesToWrite w) [0; 1; 2; 3]
  = [Ret 300; Ret 300; Ret 300; Ret 100] /\
  300 + 300 + 300 + 100 = writerAtChunkWriter.size w.
Proof. split; reflexivity. Qed.

(** A chunk that starts at or after the end of the file is skipped
    without any call. *)
Example chunk_past_the_end :
  multiThreadCopyState.copyChunk
    {| multiThreadCopyState.size := 150;
       multiThreadCopyState.partSize := 64;
       multiThreadCopyState.numChunks := 3;
       multiThreadCopyState.noSeek := false |}
    (source 150) 3 (writer (-1) None None)
  = ([], Ret None).
Proof. reflexivity. Qed.

(** 10 MiB in chunks of 4 MiB with 4 streams: three chunks of 4, 4 and
    2 MiB are written, then Close and NewObject. *)
Example ten_mebibytes :
  let MiB := 1024 * 1024 in
  multiThreadCopy (config 4 true)
    (native (info (4 * MiB) 4 false) (writer (-1) None None))
    (source (10 * MiB)) 4 parallel
  = ([EvOpenChunkWriter; EvChunkWriter (info (4 * MiB) 4 false); EvSetLimit 3 4;
      EvGo 0; EvOpen 0 0 (4 * MiB - 1); EvWriteChunk 0; EvDone 0 None;
      EvGo 1; EvOpen 1 (4 * MiB) (8 * MiB - 1); EvWriteChunk 1; EvDone 1 None;
      EvGo 2; EvOpen 2 (8 * MiB) (10 * MiB - 1); EvWriteChunk 2; EvDone 2 None;
      EvClose None; EvNewObject],
     Ret (Some object, None)).
Proof. reflexivity. Qed.

(** With a pool of one worker, a failure of chunk 2 of 5 stops the loop:
    chunks 3 and 4 are never started. *)
Example failure_stops_the_loop :
  fst (multiThreadCopy (config 4 true)
         (native (info 64 1 false) (writer 2 None None)) (source 300) 4 sequential)
  = [EvOpenChunkWriter; EvChunkWriter (info 64 1 false); EvSetLimit 5 4;
     EvGo 0; EvOpen 0 0 63; EvWriteChunk 0; EvDone 0 None;
     EvGo 1; EvOpen 1 64 127; EvWriteChunk 1; EvDone 1 None;
     EvGo 2; EvOpen 2 128 191; EvWriteChunk 2; EvDone 2 (Some write_failed);
     EvClose None; EvAbort None].
Proof. reflexivity. Qed.

End Instances.

(** * Further properties of the engine *)

(** ** Eligibility and entry *)

Section Entry.

Variables (ci : ConfigInfo) (f : Fs) (src : SrcObject) (concurrency : Z)
          (sched : Schedule).

Local Notation "'X'" := (multiThreadCopy ci f src concurrency sched).

Lemma bind_emit {A : Type} (e : event) (k : unit -> M A) :
  bind (emit e) k = (e :: fst (k tt), snd (k tt)).
Proof. unfold bind, emit. now destruct (k tt). Qed.

(** A transfer that [doMultiThreadCopy] accepts, with a positive cutoff,
    passes every check of [multiThreadCopy]: the chunk writer gets
    opened. *)
Theorem eligible_transfer_opens_writer (e : Eligibility) :
  doMultiThreadCopy ci e f src = true -> 0 < MultiThreadCutoff e ->
  exists t r, multiThreadCopy ci f src concurrency sched = (EvOpenChunkWriter :: t, r).
Proof.
  unfold doMultiThreadCopy, multiThreadCopy. intros He Hc.
  destruct (MultiThreadStreams ci <=? 1); [discriminate|].
  destruct (NoMultiThreading e); [discriminate|].
  destruct (Z.ltb_spec (Size src) (MultiThreadCutoff e)) as [|Hs]; [discriminate|].
  destruct (Z.ltb_spec (Size src) 0); [lia|].
  destruct (Z.eqb_spec (Size src) 0); [lia|].
  destruct (OpenChunkWriter (features f)) as [answer|];
    [|destruct (OpenWriterAt (features f)) as [openWriterAt|]; [|discriminate]];
    rewrite bind_emit; eauto.
Qed.

(** What [settle] returns is an object or an error. *)
Lemma settle_result err closeErr tail o e :
  settle f err closeErr = (tail, Ret (o, e)) ->
  (o = None /\ e <> None /\ tail = [] /\ (err <> None \/ closeErr <> None)) \/
  (o = None /\ e <> None /\ err = None /\ closeErr = None) \/
  (exists obj, o = Some obj /\ e = None /\ err = None /\ closeErr = None /\
               NewObject f = inr obj).
Proof.
  unfold settle, finalize.
  destruct err as [e0|]; [|destruct closeErr as [ce|]]; cbn.
  - intros [= <- <- <-]. left. repeat split; try discriminate. now left.
  - intros [= <- <- <-]. left. repeat split; try discriminate. now right.
  - destruct (NewObject f) as [e0|obj]; cbn.
    + intros [= <- <- <-]. right; left. repeat split; discriminate.
    + destruct (PartialUploads (features f)); cbn.
      * destruct (SetModTime obj) as [[]|]; cbn; intros [= <- <- <-];
          first [ right; right; exists obj; now repeat split
                | right; left; repeat split; discriminate ].
      * intros [= <- <- <-]. right; right. exists obj. now repeat split.
Qed.

(** multiThreadCopy returns an object or an error, never both and never
    neither. *)
Theorem object_or_error o e :
  snd (multiThreadCopy ci f src concurrency sched) = Ret (o, e) ->
  (o = None /\ e <> None) \/ (o <> None /\ e = None).
Proof.
  generalize (multiThreadCopy_run ci f src sched concurrency).
  generalize (multiThreadCopy ci f src concurrency sched). intros Y R.
  destruct R as [e0|pre r Hs Hpre Hr|pre info' msg Hs Hpre Hn
                |pre info' n t msg Hs Hpre Hn Ht
                |pre info' w n t done tail res' Hs Hpre Hn Ht Hd Hg Hsettle Htail];
    cbn [fst snd]; intros Hres; try discriminate Hres.
  - injection Hres as <- <-. left. split; [reflexivity|discriminate].
  - destruct Hr as [(e1 & ->)|(msg & ->)]; [|discriminate].
    injection Hres as <- <-. left. split; [reflexivity|discriminate].
  - injection Hres as ->.
    destruct (settle_result _ _ _ _ _ Hsettle)
      as [(-> & He & _)|[(-> & He & _)|(obj & -> & -> & _)]].
    + now left.
    + now left.
    + right. split; [discriminate|reflexivity].
Qed.

(** Abort is invoked exactly when a transfer whose writer was opened
    returns an error -- whatever failed: a chunk, Close, the lookup of the
    new object or the setting of its modification time -- and the backend
    does not keep its parts; it is invoked once.  A successful transfer
    never aborts. *)
Theorem abort_iff_error info o e :
  In (EvChunkWriter info) (fst X) -> snd X = Ret (o, e) ->
  count is_Abort (fst X)
  = match e with
    | Some _ => if LeavePartsOnError info then 0%nat else 1%nat
    | None => 0%nat
    end.
Proof.
  generalize (multiThreadCopy_run ci f src sched concurrency).
  generalize (multiThreadCopy ci f src concurrency sched). intros Y R.
  destruct R as [e0|pre r Hs Hpre Hr|pre info' msg Hs Hpre Hn
                |pre info' n t msg Hs Hpre Hn Ht
                |pre info' w n t done tail res' Hs Hpre Hn Ht Hd Hg Hsettle Htail];
    cbn [fst snd]; intros Hi Hres; try discriminate Hres;
    try solve [in_trace Hi; wrong_kind Hi].
  injection Hres as ->.
  assert (Hinfo : info' = info).
  { in_trace Hi; try wrong_kind Hi. now injection Hi. }
  subst info'. clear Hi.
  change (EvOpenChunkWriter :: ?l) with ([EvOpenChunkWriter] ++ l).
  rewrite !count_app.
  rewrite (count_none is_Abort pre) by (intros ev H; now rewrite (Hpre _ H)).
  change (EvChunkWriter info :: EvSetLimit ?a ?b :: ?l)
    with ([EvChunkWriter info; EvSetLimit a b] ++ l).
  rewrite !count_app.
  rewrite (count_none is_Abort t) by (intros ev H; apply Ht in H; now destruct ev).
  change (EvClose ?c :: ?l) with ([EvClose c] ++ l).
  rewrite !count_app.
  rewrite (count_none is_Abort tail)
    by (intros ev H; destruct (Htail _ H) as [-> | ->]; reflexivity).
  unfold aborts. cbn [snd]. destruct e; [destruct (LeavePartsOnError info)|]; reflexivity.
Qed.

(** Abort is only ever the last call of a run: it comes after Close, in a
    run that returns an error and no object, for a writer whose Info does
    not ask to keep the parts. *)
Theorem abort_is_last a :
  In (EvAbort a) (fst X) ->
  exists before info closeErr err,
    fst X = before ++ [EvAbort a] /\
    In (EvChunkWriter info) before /\ LeavePartsOnError info = false /\
    In (EvClose closeErr) before /\
    (forall ev, In ev before -> is_Abort ev = false) /\
    snd X = Ret (None, Some err).
Proof.
  generalize (multiThreadCopy_run ci f src sched concurrency).
  generalize (multiThreadCopy ci f src concurrency sched). intros Y R.
  destruct R as [e0|pre r Hs Hpre Hr|pre info' msg Hs Hpre Hn
                |pre info' n t msg Hs Hpre Hn Ht
                |pre info' w n t done tail [o e] Hs Hpre Hn Ht Hd Hg Hsettle Htail];
    cbn [fst snd]; intros Ha;
    try solve [in_trace Ha; wrong_kind Ha].
  unfold aborts in *. cbn [snd] in *.
  destruct e as [err|]; [destruct (LeavePartsOnError info') eqn:L|];
    try solve [in_trace Ha; wrong_kind Ha].
  in_trace Ha; try wrong_kind Ha. injection Ha as <-.
  assert (Ho : o = None).
  { destruct (settle_result _ _ _ _ _ Hsettle)
      as [(-> & _)|[(-> & _)|(obj & _ & Hx & _)]]; [reflexivity|reflexivity|discriminate]. }
  subst o.
  exists (EvOpenChunkWriter :: pre ++ EvChunkWriter info'
            :: EvSetLimit n (planConcurrency ci info' n concurrency)
            :: t ++ EvClose (cw_Close w) :: tail),
    info', (cw_Close w), err.
  split; [cbn; repeat (rewrite <- ?app_assoc; cbn); reflexivity|].
  split; [right; apply in_or_app; right; now left|].
  split; [exact L|].
  split; [right; apply in_or_app; right; right; right; apply in_or_app; right; now left|].
  split; [|reflexivity].
  intros ev H. in_trace H; subst; try reflexivity.
  - now rewrite (Hpre _ H).
  - apply Ht in H. now destruct ev.
  - destruct (Htail _ H) as [-> | ->]; reflexivity.
Qed.

(** Unless the chunk writer gets opened, multiThreadCopy makes no call
    but those that try to open it, and it returns an error or panics. *)
Theorem nothing_touched_unless_opened :
  (forall info, ~ In (EvChunkWriter info) (fst X)) ->
  (forall ev, In ev (fst X) -> ev = EvOpenChunkWriter \/ ev = EvOpenWriterAt) /\
  ((exists err, snd X = Ret (None, Some err)) \/ (exists msg, snd X = Panic msg)).
Proof.
  generalize (multiThreadCopy_run ci f src sched concurrency).
  generalize (multiThreadCopy ci f src concurrency sched). intros Y R.
  destruct R as [e0|pre r Hs Hpre Hr|pre info' msg Hs Hpre Hn
                |pre info' n t msg Hs Hpre Hn Ht
                |pre info' w n t done tail res' Hs Hpre Hn Ht Hd Hg Hsettle Htail];
    cbn [fst snd]; intros Hno;
    try solve [exfalso; apply (Hno info'); right; apply in_or_app; right; now left].
  - split; [intros ev []|]. left; eauto.
  - split; [|exact Hr]. intros ev [<-|H]; [now left|right; now apply Hpre].
Qed.

End Entry.

(** ** The pool of chunk copiers *)

Section Pool.

Variables (ci : ConfigInfo) (f : Fs) (src : SrcObject) (concurrency : Z)
          (sched : Schedule).

Local Notation "'X'" := (multiThreadCopy ci f src concurrency sched).

(** The calls of one chunk copy: the source is opened on the range of the
    chunk; the writer is called only after the source was opened and, when
    the chunk is buffered, read without error. *)
Lemma copyChunk_calls mc chunk writer ev :
  In ev (fst (multiThreadCopyState.copyChunk mc src chunk writer)) ->
  exists s e,
    multiThreadCopyState.chunkRange mc chunk = Some (s, e) /\
    (ev = EvOpen chunk s (Int64.wrap (e - 1)) \/
     (ev = EvWriteChunk chunk /\
      io_Open (src_io src chunk) = None /\
      (multiThreadCopyState.noSeek mc = false ->
       io_CopyN (src_io src chunk) (Int64.wrap (e - s)) = None))).
Proof.
  unfold multiThreadCopyState.copyChunk.
  destruct (multiThreadCopyState.chunkRange mc chunk) as [[s e]|]; [|intros []].
  intros H. exists s, e. split; [reflexivity|].
  destruct (io_Open (src_io src chunk)) eqn:Eo; cbn in H.
  - destruct H as [<-|[]]. now left.
  - destruct (multiThreadCopyState.noSeek mc) eqn:Es;
      [|destruct (io_CopyN (src_io src chunk) _) eqn:Ec];
      try destruct (cw_WriteChunk writer chunk); cbn in H;
      repeat (destruct H as [<-|H]; [first [now left | right; repeat split; congruence]|]);
      destruct H.
Qed.

(** The loop only deals with the chunks from [chunk] to [chunk + n - 1]. *)
Lemma spawn_calls mc w n :
  forall chunk done t r,
    spawn mc src w sched n chunk done = (t, r) ->
    forall ev, In ev t ->
      exists i, chunk <= i < chunk + Z.of_nat n /\
        (ev = EvGo i \/ (exists err, ev = EvDone i err) \/
         In ev (fst (multiThreadCopyState.copyChunk mc src i w))).
Proof.
  induction n as [|n IH]; intros chunk done t r; cbn [spawn].
  - intros [= <- <-] ev [].
  - destruct (gCtx_Err sched done chunk); [intros [= <- <-] ev []|].
    destruct (multiThreadCopyState.copyChunk mc src chunk w) as [tc [err|msg]] eqn:Ec; cbn.
    + specialize (IH (chunk + 1) (done ++ [(chunk, err)])).
      destruct (spawn mc src w sched n (chunk + 1) (done ++ [(chunk, err)])) as [t' r'].
      specialize (IH t' r' eq_refl).
      intros [= <- <-] ev [<-|Hev].
      * exists chunk. split; [lia|now left].
      * apply in_app_or in Hev as [Hev|[<-|Hev]].
        -- exists chunk. split; [lia|]. right; right. now rewrite Ec.
        -- exists chunk. split; [lia|]. right; left. eauto.
        -- destruct (IH ev Hev) as (i & Hi & H). exists i. split; [lia|exact H].
    + intros [= <- <-] ev [<-|Hev].
      * exists chunk. split; [lia|now left].
      * rewrite ?app_nil_r in Hev. exists chunk. split; [lia|].
        right; right. now rewrite Ec.
Qed.

Lemma chunk_numbers_cons first k :
  chunk_numbers first (S k) = first :: chunk_numbers (first + 1) k.
Proof.
  unfold chunk_numbers. cbn [seq map]. f_equal; [lia|].
  rewrite <- seq_shift, map_map. apply map_ext. intros i. lia.
Qed.

Lemma in_chunk_numbers first k i :
  In i (chunk_numbers first k) <-> first <= i < first + Z.of_nat k.
Proof.
  unfold chunk_numbers. rewrite in_map_iff. split.
  - intros (j & <- & Hj). apply in_seq in Hj. lia.
  - intros Hi. exists (Z.to_nat (i - first)). split; [lia|]. apply in_seq. lia.
Qed.

Lemma copyChunk_no_Go mc chunk w :
  filter is_Go (fst (multiThreadCopyState.copyChunk mc src chunk w)) = [].
Proof.
  pose proof (copyChunk_events src mc chunk w) as H.
  induction (fst (multiThreadCopyState.copyChunk mc src chunk w)) as [|ev l IH];
    [reflexivity|].
  cbn. destruct (H ev (or_introl eq_refl)) as (s & e & [-> | ->]); cbn;
    apply IH; intros ev' Hev'; apply H; now right.
Qed.

(** The chunks the loop starts are the first [k] of its [n] chunks, each
    started once, in order. *)
Lemma spawn_segment mc w n :
  forall chunk done t r,
    spawn mc src w sched n chunk done = (t, r) ->
    exists k, (k <= n)%nat /\ filter is_Go t = map EvGo (chunk_numbers chunk k).
Proof.
  induction n as [|n IH]; intros chunk done t r; cbn [spawn].
  - intros [= <- <-]. exists 0%nat. split; [lia|reflexivity].
  - destruct (gCtx_Err sched done chunk).
    { intros [= <- <-]. exists 0%nat. split; [lia|reflexivity]. }
    pose proof (copyChunk_no_Go mc chunk w) as Hc.
    destruct (multiThreadCopyState.copyChunk mc src chunk w) as [tc [err|msg]];
      cbn [fst] in Hc; cbn.
    + specialize (IH (chunk + 1) (done ++ [(chunk, err)])).
      destruct (spawn mc src w sched n (chunk + 1) (done ++ [(chunk, err)])) as [t' r'].
      destruct (IH t' r' eq_refl) as (k & Hk & E).
      intros [= <- <-]. exists (S k). split; [lia|].
      rewrite chunk_numbers_cons. cbn [filter is_Go map]. f_equal.
      rewrite filter_app, Hc. cbn. exact E.
    + intros [= <- <-]. exists 1%nat. split; [lia|].
      rewrite chunk_numbers_cons. cbn [filter is_Go map chunk_numbers seq]. f_equal.
      now rewrite ?app_nil_r.
Qed.

Lemma failures_app done done' :
  failures (done ++ done') = failures done ++ failures done'.
Proof. unfold failures. apply flat_map_app. Qed.

(** While the caller's context is not done and no goroutine fails, the
    loop starts every chunk. *)
Lemma spawn_complete mc w n :
  (forall i, parent_done sched i = false) ->
  forall chunk done t done',
    spawn mc src w sched n chunk done = (t, Ret done') ->
    failures done' = [] ->
    forall i, chunk <= i < chunk + Z.of_nat n ->
      In (EvGo i) t /\ In (EvDone i None) t.
Proof.
  intros Hp. induction n as [|n IH]; intros chunk done t done'; cbn [spawn].
  - intros _ _ i Hi. lia.
  - destruct (gCtx_Err sched done chunk) eqn:G.
    { intros [= <- <-] Hf. exfalso. unfold gCtx_Err in G. rewrite Hp in G.
      cbn [orb] in G.
      apply existsb_exists in G as ([j [e|]] & Hin & Hx); cbn in Hx; [|discriminate].
      assert (H : In e (failures done)) by (apply in_failures; eauto).
      rewrite Hf in H. destruct H. }
    destruct (multiThreadCopyState.copyChunk mc src chunk w) as [tc [err|msg]]; cbn;
      [|discriminate].
    pose proof (spawn_spec src sched mc w n (chunk + 1) (done ++ [(chunk, err)])) as Hs.
    specialize (IH (chunk + 1) (done ++ [(chunk, err)])).
    destruct (spawn mc src w sched n (chunk + 1) (done ++ [(chunk, err)])) as [t' r'].
    intros [= <- ->] Hf.
    destruct (Hs t' (Ret done') eq_refl) as [_ (new & -> & _)].
    assert (He : err = None).
    { destruct err as [e|]; [|reflexivity]. exfalso.
      rewrite !failures_app in Hf. cbn in Hf.
      apply app_eq_nil in Hf as [Hf _]. apply app_eq_nil in Hf as [_ Hf].
      discriminate Hf. }
    subst err. intros i Hi.
    destruct (Z.eq_dec i chunk) as [->|Hne].
    + split; [now left|]. right. apply in_or_app. right. now left.
    + destruct (IH t' _ eq_refl Hf i ltac:(lia)) as [H1 H2].
      split; right; apply in_or_app; right; now right.
Qed.

(** Once a goroutine has failed and is seen to have returned when chunk
    [i] is about to start, chunk [i] is not started. *)
Lemma spawn_stops mc w n j e i :
  finished_before sched j i = true ->
  forall chunk done t r,
    spawn mc src w sched n chunk done = (t, r) ->
    In (j, Some e) done -> ~ In (EvGo i) t.
Proof.
  intros Hfb. induction n as [|n IH]; intros chunk done t r; cbn [spawn].
  - intros [= <- <-] _ [].
  - destruct (gCtx_Err sched done chunk) eqn:G; [intros [= <- <-] _ []|].
    pose proof (copyChunk_events src mc chunk w) as Hc.
    destruct (multiThreadCopyState.copyChunk mc src chunk w) as [tc [err|msg]];
      cbn [fst] in Hc; cbn.
    + specialize (IH (chunk + 1) (done ++ [(chunk, err)])).
      destruct (spawn mc src w sched n (chunk + 1) (done ++ [(chunk, err)])) as [t' r'].
      intros [= <- <-] Hin [H|H].
      * injection H as ->. unfold gCtx_Err in G.
        apply orb_false_elim in G as [_ G].
        assert (Ht : existsb
                       (fun r0 => match snd r0 with
                                  | Some _ => finished_before sched (fst r0) i
                                  | None => false
                                  end) done = true).
        { apply existsb_exists. exists (j, Some e). split; [exact Hin|exact Hfb]. }
        congruence.
      * apply in_app_or in H as [H|[H|H]].
        -- destruct (Hc _ H) as (s0 & e0 & [?|?]); discriminate.
        -- discriminate.
        -- apply (IH t' r' eq_refl); [apply in_or_app; now left|exact H].
    + intros [= <- <-] Hin [H|H].
      * injection H as ->. unfold gCtx_Err in G.
        apply orb_false_elim in G as [_ G].
        assert (Ht : existsb
                       (fun r0 => match snd r0 with
                                  | Some _ => finished_before sched (fst r0) i
                                  | None => false
                                  end) done = true).
        { apply existsb_exists. exists (j, Some e). split; [exact Hin|exact Hfb]. }
        congruence.
      * rewrite ?app_nil_r in H. destruct (Hc _ H) as (s0 & e0 & [?|?]); discriminate.
Qed.

Lemma spawn_fails_fast mc w n j e i :
  finished_before sched j i = true -> j < i ->
  forall chunk done t r,
    spawn mc src w sched n chunk done = (t, r) ->
    In (EvDone j (Some e)) t -> ~ In (EvGo i) t.
Proof.
  intros Hfb Hji. induction n as [|n IH]; intros chunk done t r; cbn [spawn].
  - intros [= <- <-] [].
  - destruct (gCtx_Err sched done chunk) eqn:G; [intros [= <- <-] []|].
    pose proof (copyChunk_events src mc chunk w) as Hc.
    destruct (multiThreadCopyState.copyChunk mc src chunk w) as [tc [err|msg]] eqn:Ec;
      cbn [fst] in Hc; cbn.
    + pose proof (spawn_stops mc w n j e i Hfb (chunk + 1) (done ++ [(chunk, err)])) as Hst.
      pose proof (spawn_calls mc w n (chunk + 1) (done ++ [(chunk, err)])) as Hidx.
      specialize (IH (chunk + 1) (done ++ [(chunk, err)])).
      destruct (spawn mc src w sched n (chunk + 1) (done ++ [(chunk, err)])) as [t' r'].
      specialize (Hidx t' r' eq_refl). specialize (Hst t' r' eq_refl).
      intros [= <- <-] [Hd|Hd] Hg; [discriminate|].
      assert (Hg' : i = chunk \/ In (EvGo i) t').
      { destruct Hg as [Hg|Hg]; [injection Hg; auto|].
        apply in_app_or in Hg as [Hg|[Hg|Hg]]; [|discriminate|now right].
        destruct (Hc _ Hg) as (s0 & e0 & [?|?]); discriminate. }
      apply in_app_or in Hd as [Hd|[Hd|Hd]].
      * destruct (Hc _ Hd) as (s0 & e0 & [?|?]); discriminate.
      * injection Hd as -> ->. destruct Hg' as [->|Hg']; [lia|].
        apply Hst; [apply in_or_app; right; now left|exact Hg'].
      * destruct Hg' as [->|Hg']; [|exact (IH t' r' eq_refl Hd Hg')].
        destruct (Hidx _ Hd) as (i' & Hi' & [H|[(err' & H)|H]]).
        -- discriminate.
        -- injection H as -> _. lia.
        -- destruct (copyChunk_events src mc i' w _ H) as (s0 & e0 & [?|?]); discriminate.
    + intros [= <- <-] [Hd|Hd]; [discriminate|].
      rewrite ?app_nil_r in Hd. destruct (Hc _ Hd) as (s0 & e0 & [?|?]); discriminate.
Qed.

(** Every run of the coordinator is of one of these kinds. *)
Lemma multiThreadCopy_pooled :
  pooled ci f src concurrency sched (multiThreadCopy ci f src concurrency sched).
Proof.
  assert (G : forall noseek info w,
    0 < Size src -> opened_by ci f src info w noseek ->
    forall Y, Y = OnError info w (transfer ci f src concurrency sched noseek info w) ->
    pooled ci f src concurrency sched
      (EvOpenChunkWriter :: (if noseek then [EvOpenWriterAt] else [])
         ++ EvChunkWriter info :: fst Y, snd Y)).
  { intros noseek info w Hs Ho Y ->.
    destruct (guarded_transfer_shape ci f src sched concurrency noseek info w)
      as [(msg & Hn & ->)|(n & t & r & Hn & Hsp & HY)]; cbn [fst snd].
    - now apply pooled_plan_panicked with (w := w).
    - destruct r as [done|msg]; cbv zeta in HY.
      + destruct HY as (tail & res & Hsettle & ->). cbn [fst snd].
        destruct (settle_shape f (Wait sched done) (cw_Close w))
          as (tail' & res' & E & Htail & _).
        rewrite Hsettle in E. injection E as <- <-.
        now apply pooled_completed with (done := done).
      + rewrite HY. cbn [fst snd]. now apply pooled_chunk_panicked with (w := w). }
  unfold multiThreadCopy.
  destruct (OpenChunkWriter (features f)) as [answer|] eqn:Ea;
    [|destruct (OpenWriterAt (features f)) as [openWriterAt|] eqn:Ew;
      [|constructor]];
    (destruct (Z.ltb_spec (Size src) 0) as [Hneg|Hnn]; [constructor|]);
    (destruct (Z.eqb_spec (Size src) 0) as [Hz|Hnz]; [constructor|]);
    (assert (Hs : 0 < Size src) by lia).
  - destruct answer as [e|[info w]]; cbn.
    + apply pooled_not_opened; [assumption|intros ev []|left; eauto].
    + specialize (G false info w Hs).
      match goal with |- context [OnError ?i ?w' ?b] =>
        specialize (G ltac:(unfold opened_by; rewrite Ea; now split) _ eq_refl);
        destruct (OnError i w' b) as [t r]
      end.
      cbn in G |- *. now rewrite ?app_nil_r.
  - unfold openChunkWriterFromOpenWriterAt.
    destruct openWriterAt as [e|writerAt]; cbn.
    + apply pooled_not_opened;
        [assumption|intros ev [<-|[]]; reflexivity|left; eauto].
    + destruct (calculateNumChunks (Size src) (MultiThreadChunkSize ci))
        as [chunks|msg] eqn:Ec; cbn.
      * match goal with |- context [OnError ?i ?w' ?b] =>
          specialize (G true i w' Hs);
          specialize (G ltac:(unfold opened_by; rewrite Ea; eauto 10) _ eq_refl);
          destruct (OnError i w' b) as [t r]
        end.
        cbn in G |- *. now rewrite ?app_nil_r.
      * apply pooled_not_opened;
          [assumption|intros ev [<-|[]]; reflexivity|right; eauto].
Qed.

Ltac pooled_cases :=
  generalize multiThreadCopy_pooled;
  generalize (multiThreadCopy ci f src concurrency sched);
  let Y := fresh "Y" in let R := fresh "R" in
  intros Y R;
  destruct R as [e0|pre r Hs Hpre Hr|info' w noseek msg Hs Ho Hn
                |info' w noseek n' t msg Hs Ho Hn Hsp
                |info' w noseek n' t done tail res' Hs Ho Hn Hsp Hsettle Htail];
  cbn [fst snd];
  try (pose proof (proj1 (spawn_spec src sched _ _ _ _ _ _ _ Hsp)) as Ht).

Lemma filter_none (kind : event -> bool) (l : list event) :
  (forall ev, In ev l -> kind ev = false) -> filter kind l = [].
Proof.
  induction l as [|a l IH]; intros H; [reflexivity|].
  cbn. rewrite (H a) by now left. apply IH. intros ev Hev. apply H. now right.
Qed.

(** The chunk copies are started in the order of the chunk numbers, each
    at most once, none beyond the number of chunks: the chunks started
    are 0, 1, ..., k-1 for some k <= numChunks. *)
Theorem chunks_started_in_order n c :
  In (EvSetLimit n c) (fst X) ->
  exists k, (k <= Z.to_nat n)%nat /\
            filter is_Go (fst X) = map EvGo (chunk_numbers 0 k).
Proof.
  pooled_cases; intros Hl; try destruct noseek;
    in_trace Hl; try wrong_kind Hl; injection Hl as -> _;
    destruct (spawn_segment _ _ _ _ _ _ _ Hsp) as (k & Hk & E);
    exists k; (split; [exact Hk|]); cbn [app filter is_Go]; try exact E;
    rewrite filter_app, E; cbn [filter is_Go];
    rewrite filter_app, (filter_none is_Go tail)
      by (intros ev H; destruct (Htail _ H) as [-> | ->]; reflexivity);
    unfold aborts; destruct (snd res'); try destruct (LeavePartsOnError info');
    cbn; now rewrite app_nil_r.
Qed.

(** A chunk copy that succeeds on a chunk with a range has called the
    writer, and the writer has returned no error. *)
Lemma copyChunk_success mc chunk w tc :
  multiThreadCopyState.copyChunk mc src chunk w = (tc, Ret None) ->
  multiThreadCopyState.chunkRange mc chunk <> None ->
  In (EvWriteChunk chunk) tc /\ exists n, cw_WriteChunk w chunk = Ret (n, None).
Proof.
  unfold multiThreadCopyState.copyChunk.
  destruct (multiThreadCopyState.chunkRange mc chunk) as [[s e]|]; [|congruence].
  intros H _.
  destruct (io_Open (src_io src chunk)); cbn in H; [discriminate H|].
  destruct (multiThreadCopyState.noSeek mc);
    [|destruct (io_CopyN (src_io src chunk) _)]; cbn in H;
    try (destruct (io_rwClose (src_io src chunk)); discriminate H);
    destruct (cw_WriteChunk w chunk) as [[n [e'|]]|msg]; cbn in H;
    try discriminate H;
    try (destruct (io_rwClose (src_io src chunk)); discriminate H);
    injection H as <- H; (split; [right; now left|eauto]).
Qed.

Lemma spawn_done_writes mc w n :
  forall chunk done t r,
    spawn mc src w sched n chunk done = (t, r) ->
    forall i, In (EvDone i None) t ->
      multiThreadCopyState.chunkRange mc i <> None ->
      In (EvWriteChunk i) t.
Proof.
  induction n as [|n IH]; intros chunk done t r; cbn [spawn].
  - intros [= <- <-] i [].
  - destruct (gCtx_Err sched done chunk); [intros [= <- <-] i []|].
    pose proof (copyChunk_events src mc chunk w) as Hc.
    pose proof (copyChunk_success mc chunk w) as Hok.
    destruct (multiThreadCopyState.copyChunk mc src chunk w) as [tc [err|msg]];
      cbn [fst] in Hc; cbn.
    + specialize (IH (chunk + 1) (done ++ [(chunk, err)])).
      destruct (spawn mc src w sched n (chunk + 1) (done ++ [(chunk, err)])) as [t' r'].
      intros [= <- <-] i [H|H] Hr; [discriminate|].
      apply in_app_or in H as [H|[H|H]].
      * destruct (Hc _ H) as (s0 & e0 & [?|?]); discriminate.
      * injection H as -> ->.
        right. apply in_or_app. left. now apply (Hok tc eq_refl).
      * right. apply in_or_app. right. right. now apply (IH t' r' eq_refl).
    + intros [= <- <-] i [H|H] Hr; [discriminate|].
      rewrite ?app_nil_r in H. destruct (Hc _ H) as (s0 & e0 & [?|?]); discriminate.
Qed.

Lemma Wait_None_no_failure done :
  Wait sched done = None -> failures done = [].
Proof.
  intros W. destruct (failures done) as [|e l] eqn:E; [reflexivity|].
  assert (Hin : In e (failures done)) by (rewrite E; now left).
  apply in_failures in Hin as (c & Hc).
  destruct (Wait_fails sched _ _ _ Hc) as (e' & He'). congruence.
Qed.

(** The bounds of the number of chunks, for a positive chunk size. *)
Lemma numChunks_bounds (size chunkSize n : Z) :
  0 < size <= Int64.max_int -> 0 < chunkSize ->
  calculateNumChunks size chunkSize = Ret n ->
  1 <= n /\ (n - 1) * chunkSize < size <= n * chunkSize.
Proof.
  intros Hs Hc Hn. rewrite calculateNumChunks_pos in Hn by lia.
  injection Hn as <-.
  pose proof (Z.mod_pos_bound size chunkSize Hc) as Hm.
  pose proof (Z.div_mod size chunkSize ltac:(lia)) as Hdm.
  assert (0 <= size / chunkSize) by (apply Z.div_pos; lia).
  destruct (Z.eqb_spec (size mod chunkSize) 0) as [E|E]; nia.
Qed.

(** When multiThreadCopy returns an object and the caller's context was
    never done, every chunk from 0 to numChunks-1 has been started and has
    returned without error, the writer has been called for each of them
    (the chunk size being positive), and Close has returned no error. *)
Theorem success_copies_every_chunk info n c obj :
  In (EvChunkWriter info) (fst X) -> In (EvSetLimit n c) (fst X) ->
  snd X = Ret (Some obj, None) ->
  (forall i, parent_done sched i = false) ->
  In (EvClose None) (fst X) /\
  forall i, 0 <= i < n ->
    In (EvGo i) (fst X) /\ In (EvDone i None) (fst X) /\
    (0 < ChunkSize info -> Size src <= Int64.max_int -> In (EvWriteChunk i) (fst X)).
Proof.
  pooled_cases; intros Hi Hl Hres Hp; try discriminate Hres;
    try solve [in_trace Hl; wrong_kind Hl].
  injection Hres as ->.
  assert (E : info' = info /\ n' = n).
  { destruct noseek; in_trace Hi; try wrong_kind Hi; in_trace Hl; try wrong_kind Hl;
      injection Hi as ->; injection Hl as -> _; now split. }
  destruct E as [-> ->]. clear Hi Hl.
  destruct (settle_result _ _ _ _ _ _ Hsettle)
    as [(Hx & _)|[(Hx & _)|(obj' & _ & _ & HW & HC & _)]]; try discriminate Hx.
  rewrite HC. split.
  { right. apply in_or_app. right. right. right. apply in_or_app. right. now left. }
  intros i Hin.
  assert (Hf : failures done = []) by now apply Wait_None_no_failure.
  destruct (spawn_complete _ _ _ Hp _ _ _ _ Hsp Hf i ltac:(lia)) as [Hg Hd].
  assert (Hin_t : forall ev, In ev t ->
    In ev (EvOpenChunkWriter :: (if noseek then [EvOpenWriterAt] else [])
             ++ EvChunkWriter info
             :: EvSetLimit n (planConcurrency ci info n concurrency)
             :: t ++ EvClose None :: tail ++ aborts info w (Some obj, None))).
  { intros ev H. right. apply in_or_app. right. right. right.
    apply in_or_app. now left. }
  split; [now apply Hin_t|]. split; [now apply Hin_t|].
  intros Hcs Hmax. apply Hin_t.
  apply (spawn_done_writes _ _ _ _ _ _ _ Hsp i Hd).
  assert (Hcap : 0 < (if ChunkSize info >? Size src then Size src else ChunkSize info))
    by (destruct (Z.gtb_spec (ChunkSize info) (Size src)); lia).
  destruct (numChunks_bounds _ _ _ (conj Hs Hmax) Hcap Hn) as (Hn1 & Hlo & Hhi).
  unfold multiThreadCopyState.chunkRange, planned. cbn.
  rewrite wrap_in_range
    by (unfold Int64.in_range, Int64.min_int, Int64.max_int in *; nia).
  match goal with |- context [?a >=? ?b] => destruct (Z.geb_spec a b) end;
    [nia|discriminate].
Qed.

(** Fail fast: once a chunk copy has returned an error and is seen to have
    returned when a later chunk is about to be started, that chunk is not
    started. *)
Theorem failure_stops_spawning j e i :
  In (EvDone j (Some e)) (fst (multiThreadCopy ci f src concurrency sched)) ->
  finished_before sched j i = true -> j < i ->
  ~ In (EvGo i) (fst (multiThreadCopy ci f src concurrency sched)).
Proof.
  pooled_cases; intros Hd Hfb Hji Hg; try destruct noseek;
    in_trace Hd; try wrong_kind Hd;
    in_trace Hg; try wrong_kind Hg;
    exact (spawn_fails_fast _ _ _ _ _ _ Hfb Hji _ _ _ _ Hsp Hd Hg).
Qed.

Lemma spawn_done_ctx mc w n chunk done :
  parent_done sched chunk = true ->
  spawn mc src w sched n chunk done = ([], Ret done).
Proof.
  intros Hp. destruct n; [reflexivity|]. cbn [spawn]. unfold gCtx_Err.
  now rewrite Hp.
Qed.

Lemma finalize_found obj :
  NewObject f = inr obj -> PartialUploads (features f) = false ->
  settle f None None = ([EvNewObject], Ret (Some obj, None)).
Proof. intros Hn Hp. unfold settle, finalize. now rewrite Hn, Hp. Qed.

(** When the caller's context is already done as the loop begins, no chunk
    copy is started and no error is recorded.  Close is invoked all the
    same, and what the run returns is decided by Close and the lookup
    alone: the wrapped error of a failing Close, and, if Close succeeds
    and the object is found, the object -- although nothing was copied. *)
Theorem done_context_copies_nothing n c :
  parent_done sched 0 = true ->
  In (EvSetLimit n c) (fst X) ->
  (forall ev, In ev (fst X) -> is_chunk_event ev = false) /\
  (exists closeErr, In (EvClose closeErr) (fst X)) /\
  (forall closeErr, In (EvClose (Some closeErr)) (fst X) ->
     snd X = Ret (None, Some (close_failed closeErr))) /\
  (forall obj, In (EvClose None) (fst X) -> NewObject f = inr obj ->
     PartialUploads (features f) = false -> snd X = Ret (Some obj, None)).
Proof.
  intros Hp. pooled_cases; intros Hl;
    try solve [try destruct noseek; in_trace Hl; wrong_kind Hl].
  - rewrite (spawn_done_ctx _ _ _ _ _ Hp) in Hsp. discriminate Hsp.
  - rewrite (spawn_done_ctx _ _ _ _ _ Hp) in Hsp. injection Hsp as <- <-.
    rewrite Wait_None in Hsettle by (intros c0 e []).
    split; [|split; [|split]].
    + intros ev H. destruct noseek; in_trace H; subst; try reflexivity;
        destruct (Htail _ H) as [-> | ->]; reflexivity.
    + exists (cw_Close w). right. apply in_or_app. right. right. right. now left.
    + intros closeErr Hc.
      assert (Hcl : cw_Close w = Some closeErr).
      { destruct noseek; in_trace Hc; try wrong_kind Hc;
          try (now injection Hc);
          destruct (Htail _ Hc) as [E | E]; discriminate E. }
      rewrite Hcl in Hsettle. cbn in Hsettle. now injection Hsettle as <- <-.
    + intros obj Hc Hnew Hpu.
      assert (Hcl : cw_Close w = None).
      { destruct noseek; in_trace Hc; try wrong_kind Hc;
          try (now injection Hc);
          destruct (Htail _ Hc) as [E | E]; discriminate E. }
      rewrite Hcl in Hsettle.
      rewrite (finalize_found obj Hnew Hpu) in Hsettle. now injection Hsettle as <- <-.
Qed.

(** The number of chunks for a negative chunk size. *)
Lemma calculateNumChunks_neg (size chunkSize : Z) :
  0 < size <= Int64.max_int -> Int64.min_int <= chunkSize < 0 ->
  calculateNumChunks size chunkSize
  = Ret (- (size / - chunkSize) + (if size mod - chunkSize =? 0 then 0 else 1)).
Proof.
  intros Hs Hc. unfold calculateNumChunks, go_div, go_rem, go_bind.
  destruct (Z.eqb_spec chunkSize 0); [lia|].
  assert (Eq : Z.quot size chunkSize = - (size / - chunkSize)).
  { rewrite <- (Z.opp_involutive chunkSize) at 1.
    rewrite Z.quot_opp_r by lia. now rewrite Z.quot_div_nonneg by lia. }
  assert (Er : Z.rem size chunkSize = size mod - chunkSize).
  { rewrite <- (Z.opp_involutive chunkSize) at 1.
    rewrite Z.rem_opp_r by lia. now rewrite Z.rem_mod_nonneg by lia. }
  rewrite Eq, Er.
  assert (Hq : 0 <= size / - chunkSize <= size).
  { split; [apply Z.div_pos; lia|]. apply Z.div_le_upper_bound; [lia|]. nia. }
  unfold Int64.min_int, Int64.max_int in *.
  rewrite (wrap_in_range (- (size / - chunkSize)))
    by (unfold Int64.in_range, Int64.min_int, Int64.max_int; lia).
  destruct (Z.eqb_spec (size mod - chunkSize) 0); cbn [negb].
  - now rewrite Z.add_0_r.
  - rewrite wrap_in_range; [reflexivity|].
    unfold Int64.in_range, Int64.min_int, Int64.max_int. lia.
Qed.

(** On a negative chunk size calculateNumChunks does not panic: it
    returns at most 1, and 1 exactly when the size is below the absolute
    value of the chunk size. *)
Theorem negative_chunk_size_numChunks (size chunkSize : Z) :
  0 < size <= Int64.max_int -> Int64.min_int <= chunkSize < 0 ->
  exists n, calculateNumChunks size chunkSize = Ret n /\
            n <= 1 /\ (n = 1 <-> size < - chunkSize).
Proof.
  intros Hs Hc. rewrite calculateNumChunks_neg by assumption.
  eexists; split; [reflexivity|].
  assert (Hp : 0 < - chunkSize) by lia.
  pose proof (Z.mod_pos_bound size (- chunkSize) Hp) as Hm.
  pose proof (Z.div_mod size (- chunkSize) ltac:(lia)) as Hdm.
  assert (Hq0 : 0 <= size / - chunkSize) by (apply Z.div_pos; lia).
  assert (Hq : size / - chunkSize = 0 <-> size < - chunkSize).
  { split; intros Hx; [rewrite Hx in Hdm; lia|apply Z.div_small; lia]. }
  destruct (Z.eqb_spec (size mod - chunkSize) 0) as [E|E].
  - assert (size / - chunkSize <> 0) by (intros Hx; rewrite Hx in Hdm; lia).
    split; [lia|]. split; intros Hx; [lia|]. apply Hq in Hx. contradiction.
  - split; [lia|]. split; intros Hx; [apply Hq; lia|apply Hq in Hx; lia].
Qed.

(** A writer that reports a negative chunk size no larger in absolute
    value than the source makes the coordinator plan no chunk at all:
    nothing is copied, Close is invoked all the same and, if it succeeds
    and the object is found, multiThreadCopy returns the object. *)
Theorem negative_chunk_size_copies_nothing info :
  In (EvChunkWriter info) (fst X) ->
  Int64.min_int <= ChunkSize info < 0 -> - ChunkSize info <= Size src <= Int64.max_int ->
  (forall ev, In ev (fst X) -> is_chunk_event ev = false) /\
  (exists closeErr, In (EvClose closeErr) (fst X)) /\
  (forall obj, In (EvClose None) (fst X) -> NewObject f = inr obj ->
     PartialUploads (features f) = false -> snd X = Ret (Some obj, None)).
Proof.
  pooled_cases; intros Hi Hcs Hsz;
    try solve [in_trace Hi; wrong_kind Hi].
  all: assert (Hinfo : info' = info)
         by (destruct noseek; in_trace Hi; try wrong_kind Hi; now injection Hi);
       subst info'; clear Hi;
       assert (Hcap : (if ChunkSize info >? Size src then Size src else ChunkSize info)
                      = ChunkSize info)
         by (destruct (Z.gtb_spec (ChunkSize info) (Size src)); lia);
       rewrite Hcap in Hn.
  - apply calculateNumChunks_panic in Hn. lia.
  - rewrite calculateNumChunks_neg in Hn by lia. injection Hn as <-.
    assert (Hz : Z.to_nat (- (Size src / - ChunkSize info)
                           + (if Size src mod - ChunkSize info =? 0 then 0 else 1)) = 0%nat).
    { assert (Hp : 0 < - ChunkSize info) by lia.
      pose proof (Z.mod_pos_bound (Size src) (- ChunkSize info) Hp) as Hm.
      pose proof (Z.div_mod (Size src) (- ChunkSize info) ltac:(lia)) as Hdm.
      assert (1 <= Size src / - ChunkSize info)
        by (apply Z.div_le_lower_bound; lia).
      destruct (Z.eqb_spec (Size src mod - ChunkSize info) 0); lia. }
    rewrite Hz in Hsp. cbn in Hsp. discriminate Hsp.
  - rewrite calculateNumChunks_neg in Hn by lia. injection Hn as <-.
    assert (Hz : Z.to_nat (- (Size src / - ChunkSize info)
                           + (if Size src mod - ChunkSize info =? 0 then 0 else 1)) = 0%nat).
    { assert (Hp : 0 < - ChunkSize info) by lia.
      pose proof (Z.mod_pos_bound (Size src) (- ChunkSize info) Hp) as Hm.
      pose proof (Z.div_mod (Size src) (- ChunkSize info) ltac:(lia)) as Hdm.
      assert (1 <= Size src / - ChunkSize info)
        by (apply Z.div_le_lower_bound; lia).
      destruct (Z.eqb_spec (Size src mod - ChunkSize info) 0); lia. }
    rewrite Hz in Hsp. cbn in Hsp. injection Hsp as <- <-.
    split; [|split].
    + intros ev H. destruct noseek; in_trace H; subst; try reflexivity;
        destruct (Htail _ H) as [-> | ->]; reflexivity.
    + exists (cw_Close w). right. apply in_or_app. right. right. right. now left.
    + intros obj Hc Hnew Hpu.
      assert (Hcl : cw_Close w = None).
      { destruct noseek; in_trace Hc; try wrong_kind Hc; now injection Hc. }
      rewrite Hcl in *. rewrite Wait_None in Hsettle by (intros c e []).
      rewrite (finalize_found obj Hnew Hpu) in Hsettle. now injection Hsettle as <- <-.
Qed.

(** Where the loop opens the source: on the ranges of its chunks. *)
Lemma spawn_opens mc w n chunk done t r i s e :
  spawn mc src w sched n chunk done = (t, r) ->
  In (EvOpen i s e) t ->
  chunk <= i < chunk + Z.of_nat n /\
  exists e', multiThreadCopyState.chunkRange mc i = Some (s, e') /\
             e = Int64.wrap (e' - 1).
Proof.
  intros Hsp H.
  destruct (spawn_calls _ _ _ _ _ _ _ Hsp _ H) as (i' & Hi' & [Hx|[(err & Hx)|Hx]]);
    try discriminate Hx.
  destruct (copyChunk_calls _ _ _ _ Hx) as (s' & e' & Hr & [Hy|(Hy & _)]);
    [|discriminate Hy].
  injection Hy as -> -> ->. split; [exact Hi'|]. eauto.
Qed.

Lemma open_events_exact info w noseek n t r i s e :
  0 < Size src <= Int64.max_int -> 0 < ChunkSize info ->
  calculateNumChunks (Size src)
    (if ChunkSize info >? Size src then Size src else ChunkSize info) = Ret n ->
  n * (if ChunkSize info >? Size src then Size src else ChunkSize info)
  <= Int64.max_int ->
  spawn (planned (Size src) (ChunkSize info) n noseek) src w sched (Z.to_nat n) 0 []
  = (t, r) ->
  In (EvOpen i s e) t ->
  0 <= i < n /\
  s = i * (if ChunkSize info >? Size src then Size src else ChunkSize info) /\
  e = Z.min ((i + 1) * (if ChunkSize info >? Size src then Size src else ChunkSize info))
            (Size src) - 1.
Proof.
  intros Hs Hcs Hn Hov Hsp H.
  set (p := if ChunkSize info >? Size src then Size src else ChunkSize info) in *.
  assert (Hp : 0 < p) by (subst p; destruct (Z.gtb_spec (ChunkSize info) (Size src)); lia).
  destruct (numChunks_bounds _ _ _ Hs Hp Hn) as (Hn1 & Hlo & Hhi).
  destruct (spawn_opens _ _ _ _ _ _ _ _ _ _ Hsp H) as (Hi & e' & Hr & ->).
  assert (Hin : 0 <= i < n) by lia. split; [exact Hin|].
  rewrite (chunkRange_exact (planned (Size src) (ChunkSize info) n noseek) i) in Hr;
    cbn [planned multiThreadCopyState.size multiThreadCopyState.partSize];
    fold p; try lia; try nia.
  injection Hr as <- <-. split; [reflexivity|].
  apply wrap_in_range.
  unfold Int64.in_range, Int64.min_int, Int64.max_int in *. nia.
Qed.

(** For a positive chunk size (and below the int64 overflow bound), the
    ranges the run asks the source for are those of the chunks: chunk i,
    with 0 <= i < numChunks, is opened from i*partSize to
    min((i+1)*partSize, size) - 1 inclusive, partSize being the writer's
    chunk size capped to the size of the source. *)
Theorem source_opened_on_tiles info n c i s e :
  In (EvChunkWriter info) (fst X) -> In (EvSetLimit n c) (fst X) ->
  0 < ChunkSize info -> Size src <= Int64.max_int ->
  n * (if ChunkSize info >? Size src then Size src else ChunkSize info)
  <= Int64.max_int ->
  In (EvOpen i s e) (fst X) ->
  0 <= i < n /\
  s = i * (if ChunkSize info >? Size src then Size src else ChunkSize info) /\
  e = Z.min ((i + 1) * (if ChunkSize info >? Size src then Size src else ChunkSize info))
            (Size src) - 1.
Proof.
  pooled_cases; intros Hi Hl Hcs Hmax Hov Hop;
    try solve [try destruct noseek; in_trace Hl; wrong_kind Hl].
  all: assert (E : info' = info /\ n' = n)
         by (destruct noseek; in_trace Hi; try wrong_kind Hi;
             in_trace Hl; try wrong_kind Hl;
             injection Hi as ->; injection Hl as -> _; now split);
       destruct E as [-> ->];
       assert (Hop' : In (EvOpen i s e) t)
         by (destruct noseek; in_trace Hop; try wrong_kind Hop; exact Hop);
       exact (open_events_exact _ _ _ _ _ _ _ _ _ (conj Hs Hmax) Hcs Hn Hov Hsp Hop').
Qed.

(** A writer whose chunk size is at least the size of the source gets the
    file as a single chunk: one chunk is planned and the source is opened
    once at most, on the whole file. *)
Theorem oversized_chunk_size_single_chunk info :
  In (EvChunkWriter info) (fst X) ->
  Size src <= Int64.max_int -> Size src <= ChunkSize info ->
  (forall n c, In (EvSetLimit n c) (fst X) -> n = 1) /\
  (forall i s e, In (EvOpen i s e) (fst X) -> i = 0 /\ s = 0 /\ e = Size src - 1).
Proof.
  pooled_cases; intros Hi Hmax Hcs;
    try solve [in_trace Hi; wrong_kind Hi].
  all: assert (Hinfo : info' = info)
         by (destruct noseek; in_trace Hi; try wrong_kind Hi; now injection Hi);
       subst info'; clear Hi;
       assert (Hcap : (if ChunkSize info >? Size src then Size src else ChunkSize info)
                      = Size src)
         by (destruct (Z.gtb_spec (ChunkSize info) (Size src)); lia).
  - split; intros; destruct noseek; in_trace H; wrong_kind H.
  - assert (Hn1 : n' = 1).
    { rewrite Hcap in Hn. rewrite calculateNumChunks_pos in Hn by lia.
      rewrite Z.div_same, Z.mod_same in Hn by lia. now injection Hn. }
    subst n'. split.
    + intros n c H. destruct noseek; in_trace H; try wrong_kind H; now injection H.
    + intros i s e H.
      assert (H' : In (EvOpen i s e) t)
        by (destruct noseek; in_trace H; try wrong_kind H; exact H).
      assert (Hpos : 0 < ChunkSize info) by lia.
      assert (Hov : 1 * (if ChunkSize info >? Size src then Size src else ChunkSize info)
                    <= Int64.max_int) by (rewrite Hcap; lia).
      destruct (open_events_exact _ _ _ _ _ _ _ _ _ (conj Hs Hmax) Hpos Hn Hov Hsp H')
        as (Hi & -> & ->).
      rewrite Hcap. assert (i = 0) by lia. subst i. repeat split; lia.
  - assert (Hn1 : n' = 1).
    { rewrite Hcap in Hn. rewrite calculateNumChunks_pos in Hn by lia.
      rewrite Z.div_same, Z.mod_same in Hn by lia. now injection Hn. }
    subst n'. split.
    + intros n c H. destruct noseek; in_trace H; try wrong_kind H; now injection H.
    + intros i s e H.
      assert (H' : In (EvOpen i s e) t)
        by (destruct noseek; in_trace H; try wrong_kind H; exact H).
      assert (Hpos : 0 < ChunkSize info) by lia.
      assert (Hov : 1 * (if ChunkSize info >? Size src then Size src else ChunkSize info)
                    <= Int64.max_int) by (rewrite Hcap; lia).
      destruct (open_events_exact _ _ _ _ _ _ _ _ _ (conj Hs Hmax) Hpos Hn Hov Hsp H')
        as (Hi & -> & ->).
      rewrite Hcap. assert (i = 0) by lia. subst i. repeat split; lia.
Qed.

(** With a native chunk writer the random-access writer is never opened,
    and a chunk is handed to WriteChunk only once it has been read into
    the buffer without error. *)
Theorem native_writer_gets_buffered_chunks answer info n c i :
  OpenChunkWriter (features f) = Some answer ->
  In (EvChunkWriter info) (fst X) -> In (EvSetLimit n c) (fst X) ->
  ~ In EvOpenWriterAt (fst X) /\
  (In (EvWriteChunk i) (fst X) ->
   io_Open (src_io src i) = None /\
   io_CopyN (src_io src i)
     (chunkLength (planned (Size src) (ChunkSize info) n false) i) = None).
Proof.
  intros Ea. pooled_cases; intros Hi Hl;
    try solve [try destruct noseek; in_trace Hl; wrong_kind Hl].
  all: unfold opened_by in Ho; rewrite Ea in Ho; destruct Ho as [_ ->];
       assert (E : info' = info /\ n' = n)
         by (in_trace Hi; try wrong_kind Hi; in_trace Hl; try wrong_kind Hl;
             injection Hi as ->; injection Hl as -> _; now split);
       destruct E as [-> ->]; (split; [intros H; in_trace H; wrong_kind H|]);
       intros H;
       assert (H' : In (EvWriteChunk i) t)
         by (in_trace H; try wrong_kind H; exact H);
       destruct (spawn_calls _ _ _ _ _ _ _ Hsp _ H') as (i' & _ & [Hx|[(err & Hx)|Hx]]);
       try discriminate Hx;
       destruct (copyChunk_calls _ _ _ _ Hx) as (s' & e' & Hr & [Hy|(Hy & Hopen & Hcopy)]);
       try discriminate Hy; injection Hy as ->;
       (split; [exact Hopen|]); unfold chunkLength; rewrite Hr; now apply Hcopy.
Qed.

(** Without a native chunk writer the writer is the adapter: its Info
    carries the configured chunk size (which is not zero) and stream
    count and does not ask to keep the parts, so that a transfer that
    returns an error removes the destination file through the adapter's
    Abort. *)
Theorem adapted_writer_info info :
  OpenChunkWriter (features f) = None ->
  In (EvChunkWriter info) (fst X) ->
  info = {| ChunkSize := MultiThreadChunkSize ci;
            Concurrency := MultiThreadStreams ci;
            LeavePartsOnError := false |} /\
  MultiThreadChunkSize ci <> 0 /\
  In EvOpenWriterAt (fst X) /\
  (forall o e, snd X = Ret (o, Some e) ->
     In (EvAbort (writerAtChunkWriter.Abort f)) (fst X)).
Proof.
  intros Ea. pooled_cases; intros Hi;
    try solve [in_trace Hi; wrong_kind Hi].
  all: unfold opened_by in Ho; rewrite Ea in Ho;
       destruct Ho as (writerAt & chunks & Ew & Ec & -> & Ewr & ->);
       in_trace Hi; try wrong_kind Hi; injection Hi as <-;
       (split; [reflexivity|]);
       (split; [intros H0; rewrite H0 in Ec; discriminate Ec|]);
       (split; [right; now left|]); intros o e Hres; try discriminate Hres.
  injection Hres as ->. unfold aborts. cbn [snd LeavePartsOnError].
  rewrite Ewr. cbn [cw_Abort writerAtChunkWriter.asChunkWriter].
  right. right. right. right. apply in_or_app. right. right.
  apply in_or_app. right. now left.
Qed.

(** Without a native chunk writer, and called with the configured number
    of streams, the pool always gets that number of workers (one at
    least): it is never clamped to the number of chunks. *)
Theorem adapted_concurrency_not_clamped n c :
  OpenChunkWriter (features f) = None ->
  concurrency = MultiThreadStreams ci ->
  In (EvSetLimit n c) (fst (multiThreadCopy ci f src concurrency sched)) ->
  c = Z.max 1 (MultiThreadStreams ci).
Proof.
  intros Ea Ec. pooled_cases; intros Hl;
    try solve [try destruct noseek; in_trace Hl; wrong_kind Hl].
  all: unfold opened_by in Ho; rewrite Ea in Ho;
       destruct Ho as (writerAt & chunks & _ & _ & -> & _ & ->);
       in_trace Hl; try wrong_kind Hl; injection Hl as -> <-;
       unfold planConcurrency; cbn [Concurrency]; rewrite Ec;
       destruct (MultiThreadSet ci); cbn [negb orb];
       repeat match goal with
              | |- context [?a >? ?b] => destruct (Z.gtb_spec a b)
              | |- context [?a <? ?b] => destruct (Z.ltb_spec a b)
              end; lia.
Qed.

(** Without a native chunk writer, a configured chunk size of zero makes
    the adapter divide by zero after the destination was opened for
    writing: the run panics with the destination neither closed nor
    removed. *)
Theorem adapted_zero_chunk_size_panics writerAt :
  OpenChunkWriter (features f) = None ->
  OpenWriterAt (features f) = Some (inr writerAt) ->
  MultiThreadChunkSize ci = 0 -> 0 < Size src ->
  multiThreadCopy ci f src concurrency sched
  = ([EvOpenChunkWriter; EvOpenWriterAt], Panic divide_by_zero).
Proof.
  intros Ea Ew Ec Hs. unfold multiThreadCopy, openChunkWriterFromOpenWriterAt.
  rewrite Ea, Ew, Ec.
  destruct (Z.ltb_spec (Size src) 0); [lia|].
  destruct (Z.eqb_spec (Size src) 0); [lia|].
  reflexivity.
Qed.

(** In the adapter's mode a chunk is streamed, not buffered. *)
Lemma copyChunk_unbuffered mc chunk w :
  multiThreadCopyState.noSeek mc = true ->
  multiThreadCopyState.copyChunk mc (unbuffered src) chunk w
  = multiThreadCopyState.copyChunk mc src chunk w.
Proof.
  intros Hn. unfold multiThreadCopyState.copyChunk.
  destruct (multiThreadCopyState.chunkRange mc chunk) as [[s e]|]; [|reflexivity].
  cbn [unbuffered src_io io_Open io_rcClose]. now rewrite Hn.
Qed.

Lemma spawn_unbuffered mc w n :
  multiThreadCopyState.noSeek mc = true ->
  forall chunk done,
    spawn mc (unbuffered src) w sched n chunk done = spawn mc src w sched n chunk done.
Proof.
  intros Hn. induction n as [|n IH]; intros chunk done; cbn [spawn]; [reflexivity|].
  destruct (gCtx_Err sched done chunk); [reflexivity|].
  rewrite (copyChunk_unbuffered mc chunk w Hn).
  unfold bind at 1 3.
  destruct (multiThreadCopyState.copyChunk mc src chunk w) as [t [err|msg]];
    cbn; now rewrite ?IH.
Qed.

Lemma transfer_unbuffered info w :
  transfer ci f (unbuffered src) concurrency sched true info w
  = transfer ci f src concurrency sched true info w.
Proof.
  unfold transfer. cbn [unbuffered Size].
  destruct (calculateNumChunks (Size src) _) as [n|msg]; [|reflexivity].
  cbn. now rewrite spawn_unbuffered.
Qed.

(** Without a native chunk writer the chunks are streamed to the writer:
    the transfer does not read them into a buffer first, so what reading
    into the buffer or closing it would answer plays no part in the
    run. *)
Theorem adapted_transfer_not_buffered :
  OpenChunkWriter (features f) = None ->
  multiThreadCopy ci f (unbuffered src) concurrency sched
  = multiThreadCopy ci f src concurrency sched.
Proof.
  intros Ea. unfold multiThreadCopy, openChunkWriterFromOpenWriterAt. rewrite Ea.
  destruct (OpenWriterAt (features f)) as [[e|writerAt]|]; [| |reflexivity];
    cbn [unbuffered Size];
    (destruct (Size src <? 0); [reflexivity|]);
    (destruct (Size src =? 0); [reflexivity|]); [reflexivity|].
  destruct (calculateNumChunks (Size src) (MultiThreadChunkSize ci)) as [n|msg];
    [|reflexivity].
  cbn. now rewrite transfer_unbuffered.
Qed.

End Pool.

(** ** One chunk copy *)

Section CopyChunk.

Import multiThreadCopyState.

Variables (mc : t) (src : SrcObject) (chunk : Z) (w : ChunkWriter).

Local Abbreviation io := (src_io src chunk).

(** No failure is swallowed: a chunk copy of a chunk with a range returns
    nil exactly when the source was opened, the chunk was read into the
    buffer and the buffer closed (unless the chunk is streamed), the
    writer returned no error and the source stream was closed, all without
    error. *)
Theorem copyChunk_nil_iff s e :
  chunkRange mc chunk = Some (s, e) ->
  snd (copyChunk mc src chunk w) = Ret None <->
  io_Open io = None /\
  (noSeek mc = false ->
   io_CopyN io (Int64.wrap (e - s)) = None /\ io_rwClose io = None) /\
  (exists n, cw_WriteChunk w chunk = Ret (n, None)) /\
  io_rcClose io = None.
Proof.
  intros Hr. unfold copyChunk. rewrite Hr.
  destruct (io_Open io) as [eo|]; cbn;
    [|destruct (noSeek mc);
      [|destruct (io_CopyN io (Int64.wrap (e - s))) as [ec|]]; cbn;
      try (destruct (cw_WriteChunk w chunk) as [[n [ew|]]|msg]; cbn);
      destruct (io_rwClose io) as [e1|]; destruct (io_rcClose io) as [e2|]; cbn];
    (split;
     [ intros H; try discriminate H;
       (split; [reflexivity|]);
       (split; [intros Hx; try discriminate Hx; now split|]);
       (split; [eauto|reflexivity])
     | intros (H1 & H2 & (n' & H3) & H4);
       try discriminate H1; try discriminate H3; try discriminate H4;
       try (destruct (H2 eq_refl) as [H5 H6];
            first [discriminate H5 | discriminate H6]);
       reflexivity ]).
Qed.

(** The first failure is the one reported: a failure to open the source,
    to read the chunk into the buffer or to write it is returned wrapped,
    whatever the deferred Close calls answer; the writer is not called
    after a failed open or a failed read. *)
Theorem copyChunk_first_failure s e :
  chunkRange mc chunk = Some (s, e) ->
  let opened := EvOpen chunk s (Int64.wrap (e - 1)) in
  (forall err, io_Open io = Some err ->
     copyChunk mc src chunk w
     = ([opened], Ret (Some (wrapError "multi-thread copy: failed to open source" err)))) /\
  (forall err, io_Open io = None -> noSeek mc = false ->
     io_CopyN io (Int64.wrap (e - s)) = Some err ->
     copyChunk mc src chunk w
     = ([opened], Ret (Some (wrapError "multi-thread copy: failed to read chunk" err)))) /\
  (forall n err, io_Open io = None ->
     (noSeek mc = false -> io_CopyN io (Int64.wrap (e - s)) = None) ->
     cw_WriteChunk w chunk = Ret (n, Some err) ->
     copyChunk mc src chunk w
     = ([opened; EvWriteChunk chunk],
        Ret (Some (wrapError "multi-thread copy: failed to write chunk" err)))).
Proof.
  intros Hr opened. unfold copyChunk. rewrite Hr. subst opened. repeat split.
  - intros err ->. reflexivity.
  - intros err -> -> ->. reflexivity.
  - intros n err -> Hc Hw. destruct (noSeek mc).
    + rewrite Hw. reflexivity.
    + rewrite (Hc eq_refl), Hw. reflexivity.
Qed.

End CopyChunk.

(** ** Chunk lengths *)

Section Lengths.

Import multiThreadCopyState.

Lemma chunk_numbers_snoc first k :
  chunk_numbers first (S k) = chunk_numbers first k ++ [first + Z.of_nat k].
Proof. unfold chunk_numbers. now rewrite seq_S, map_app. Qed.

Lemma sum_app l1 l2 : sum (l1 ++ l2) = sum l1 + sum l2.
Proof. unfold sum. induction l1 as [|a l1 IH]; cbn; [reflexivity|]. rewrite IH. lia. Qed.

Lemma chunkLength_exact (mc : t) (i : Z) :
  0 < size mc <= Int64.max_int -> 0 < partSize mc ->
  0 <= i -> i * partSize mc < size mc ->
  (i + 1) * partSize mc <= Int64.max_int ->
  chunkLength mc i = Z.min ((i + 1) * partSize mc) (size mc) - i * partSize mc.
Proof.
  intros Hs Hp Hi Hlt Hov. unfold chunkLength.
  rewrite chunkRange_exact by assumption.
  apply wrap_in_range.
  unfold Int64.in_range, Int64.min_int, Int64.max_int in *. nia.
Qed.

(** The lengths of the chunks add up to the size of the source (for a
    positive part size and below the int64 overflow bound). *)
Theorem chunk_lengths_add_up (mc : t) :
  0 < size mc <= Int64.max_int -> 0 < partSize mc ->
  calculateNumChunks (size mc) (partSize mc) = Ret (numChunks mc) ->
  numChunks mc * partSize mc <= Int64.max_int ->
  sum (map (chunkLength mc) (chunk_numbers 0 (Z.to_nat (numChunks mc)))) = size mc.
Proof.
  intros Hs Hp Hn Hov.
  destruct (numChunks_bounds _ _ _ Hs Hp Hn) as (Hn1 & Hlo & Hhi).
  assert (P : forall k : nat, Z.of_nat k <= numChunks mc ->
    sum (map (chunkLength mc) (chunk_numbers 0 k))
    = Z.min (Z.of_nat k * partSize mc) (size mc)).
  { induction k as [|k IH]; intros Hk.
    - cbn. lia.
    - rewrite chunk_numbers_snoc, map_app, sum_app, IH by lia.
      cbn [map sum fold_right]. rewrite chunkLength_exact by (try lia; nia).
      nia. }
  rewrite P by lia. rewrite Z2Nat.id by lia. lia.
Qed.

(** The adapter and the coordinator agree on the chunks: for a source of
    [size] bytes and a configured chunk size [chunkSize], the adapter
    counts as many chunks as the coordinator plans with the capped chunk
    size, and for each of them WriteChunk expects exactly the number of
    bytes the chunk copier reads. *)
Theorem reader_and_writer_agree (size chunkSize chunks n writeBufferSize : Z)
    (noseek : bool) :
  0 < size <= Int64.max_int -> 0 < chunkSize ->
  calculateNumChunks size chunkSize = Ret chunks ->
  calculateNumChunks size (if chunkSize >? size then size else chunkSize) = Ret n ->
  n * (if chunkSize >? size then size else chunkSize) <= Int64.max_int ->
  chunks = n /\
  forall i, 0 <= i < n ->
    writerAtChunkWriter.bytesToWrite
      {| writerAtChunkWriter.size := size;
         writerAtChunkWriter.chunkSize := chunkSize;
         writerAtChunkWriter.chunks := chunks;
         writerAtChunkWriter.writeBufferSize := writeBufferSize |} i
    = Ret (chunkLength (planned size chunkSize n noseek) i).
Proof.
  intros Hs Hc Hch Hn Hov.
  pose proof (Z.mod_pos_bound size chunkSize Hc) as Hm.
  pose proof (Z.div_mod size chunkSize ltac:(lia)) as Hdm.
  assert (Hq : 0 <= size / chunkSize) by (apply Z.div_pos; lia).
  rewrite calculateNumChunks_pos in Hch by lia. injection Hch as <-.
  destruct (Z.gtb_spec chunkSize size) as [Hgt|Hle].
  - (* the chunk size is capped: a single chunk *)
    rewrite calculateNumChunks_pos in Hn by lia.
    rewrite Z.div_same, Z.mod_same in Hn by lia. injection Hn as <-.
    rewrite Z.div_small, Z.mod_small by lia.
    destruct (Z.eqb_spec size 0); [lia|]. split; [reflexivity|].
    intros i Hi. assert (i = 0) by lia. subst i.
    rewrite chunkLength_exact;
      unfold planned; cbn [multiThreadCopyState.size multiThreadCopyState.partSize];
      destruct (Z.gtb_spec chunkSize size); try lia.
    unfold writerAtChunkWriter.bytesToWrite, go_rem, go_bind.
    cbn [writerAtChunkWriter.chunks writerAtChunkWriter.size
         writerAtChunkWriter.chunkSize].
    change (Int64.wrap (0 + 1 - 1)) with 0. cbn [Z.eqb].
    destruct (Z.eqb_spec chunkSize 0); [lia|].
    rewrite Z.rem_mod_nonneg, Z.mod_small by lia.
    destruct (Z.eqb_spec size 0); [lia|]. cbn [negb]. f_equal. lia.
  - rewrite calculateNumChunks_pos in Hn by lia. injection Hn as Hn.
    split; [exact Hn|]. intros i Hi.
    assert (Hrange : (size / chunkSize + (if size mod chunkSize =? 0 then 0 else 1)) - 1
                     = n - 1) by lia.
    rewrite chunkLength_exact;
      unfold planned; cbn [multiThreadCopyState.size multiThreadCopyState.partSize];
      destruct (Z.gtb_spec chunkSize size); try lia;
      try (destruct (Z.eqb_spec (size mod chunkSize) 0); nia).
    unfold writerAtChunkWriter.bytesToWrite, go_rem, go_bind.
    cbn [writerAtChunkWriter.chunks writerAtChunkWriter.size
         writerAtChunkWriter.chunkSize].
    rewrite Hrange.
    rewrite wrap_in_range
      by (unfold Int64.in_range, Int64.min_int, Int64.max_int in *;
          destruct (Z.eqb_spec (size mod chunkSize) 0); nia).
    destruct (Z.eqb_spec chunkSize 0); [lia|].
    rewrite Z.rem_mod_nonneg by lia.
    destruct (Z.eqb_spec i (n - 1)) as [->|Hne];
      destruct (Z.eqb_spec (size mod chunkSize) 0); cbn [negb]; f_equal; nia.
Qed.

End Lengths.

(** ** Writes into a memory *)

Section Memory.

Local Abbreviation len l := (Z.of_nat (List.length l)).

(** What a memory holds after a block was stored. *)
Lemma store_spec (p : list Byte.byte) :
  forall off (m : memory) a,
    store p off m a
    = if (off <=? a) && (a <? off + len p)
      then nth_error p (Z.to_nat (a - off)) else m a.
Proof.
  induction p as [|b p IH]; intros off m a; cbn [store List.length].
  - cbn. destruct (Z.leb_spec off a), (Z.ltb_spec a (off + 0));
      cbn; try reflexivity; lia.
  - rewrite IH.
    destruct (Z.leb_spec (off + 1) a), (Z.ltb_spec a (off + 1 + len p)),
             (Z.leb_spec off a), (Z.ltb_spec a (off + Z.of_nat (S (List.length p))));
      cbn [andb]; try lia.
    + replace (Z.to_nat (a - off)) with (S (Z.to_nat (a - (off + 1))));
        [reflexivity|rewrite <- Z2Nat.inj_succ by lia; f_equal; lia].
    + destruct (Z.eqb_spec a off); [lia|reflexivity].
    + destruct (Z.eqb_spec a off) as [->|]; [|lia].
      now rewrite Z.sub_diag.
    + destruct (Z.eqb_spec a off); [lia|reflexivity].
Qed.

Lemma writeAll_memory (ps : list (list Byte.byte)) :
  forall (o : offsetWriter.t) (m : memory),
    Int64.in_range (offsetWriter.off o) ->
    offsetWriter.off o + len (List.concat ps) <= Int64.max_int ->
    offsetWriter.off (fst (offsetWriter.writeAll o ps m))
    = offsetWriter.off o + len (List.concat ps) /\
    forall a,
      snd (offsetWriter.writeAll o ps m) a
      = if (offsetWriter.off o <=? a) && (a <? offsetWriter.off o + len (List.concat ps))
        then nth_error (List.concat ps) (Z.to_nat (a - offsetWriter.off o)) else m a.
Proof.
  induction ps as [|p ps IH]; intros o m Hr Hmax; cbn [offsetWriter.writeAll List.concat].
  - cbn. split; [lia|]. intros a.
    destruct (Z.leb_spec (offsetWriter.off o) a),
             (Z.ltb_spec a (offsetWriter.off o + 0)); cbn; try reflexivity; lia.
  - cbn [List.concat] in Hmax. rewrite length_app, Nat2Z.inj_add in Hmax.
    rewrite length_app, Nat2Z.inj_add.
    change (offsetWriter.Write o p m)
      with (({| offsetWriter.off := Int64.wrap (offsetWriter.off o + len p) |},
             store p (offsetWriter.off o) m), (len p, @None error)).
    cbn [fst snd].
    assert (Hw : Int64.wrap (offsetWriter.off o + len p) = offsetWriter.off o + len p).
    { apply wrap_in_range.
      unfold Int64.in_range, Int64.min_int, Int64.max_int in *. lia. }
    rewrite Hw.
    destruct (IH {| offsetWriter.off := offsetWriter.off o + len p |}
                 (store p (offsetWriter.off o) m)) as [Hoff Hmem];
      cbn [offsetWriter.off].
    + unfold Int64.in_range, Int64.min_int, Int64.max_int in *. lia.
    + lia.
    + cbn [offsetWriter.off] in Hoff, Hmem. split; [lia|].
      intros a. rewrite Hmem, store_spec.
      set (base := offsetWriter.off o) in *.
      destruct (Z.leb_spec (base + len p) a),
               (Z.ltb_spec a (base + len p + len (List.concat ps))),
               (Z.leb_spec base a), (Z.ltb_spec a (base + len p)),
               (Z.ltb_spec a (base + (len p + len (List.concat ps))));
        cbn [andb]; try lia; try reflexivity.
      * rewrite nth_error_app2 by lia. f_equal. lia.
      * rewrite nth_error_app1 by lia. reflexivity.
Qed.

(** Writes through an offset writer into a memory leave the data of the
    successive writes, end to end, from the writer's starting offset on,
    and leave every other byte of the memory as it was. *)
Theorem memory_writes_concatenate (o : offsetWriter.t) (ps : list (list Byte.byte))
    (m : memory) :
  Int64.in_range (offsetWriter.off o) ->
  offsetWriter.off o + len (List.concat ps) <= Int64.max_int ->
  offsetWriter.off (fst (offsetWriter.writeAll o ps m))
  = offsetWriter.off o + len (List.concat ps) /\
  forall a,
    snd (offsetWriter.writeAll o ps m) a
    = if (offsetWriter.off o <=? a) && (a <? offsetWriter.off o + len (List.concat ps))
      then nth_error (List.concat ps) (Z.to_nat (a - offsetWriter.off o)) else m a.
Proof. apply writeAll_memory. Qed.

(** Two offset writers that write disjoint ranges of a memory can do so
    in either order: the memory ends up the same. *)
Theorem disjoint_writes_commute (o1 o2 : offsetWriter.t)
    (ps1 ps2 : list (list Byte.byte)) (m : memory) :
  Int64.in_range (offsetWriter.off o1) -> Int64.in_range (offsetWriter.off o2) ->
  offsetWriter.off o1 + len (List.concat ps1) <= Int64.max_int ->
  offsetWriter.off o2 + len (List.concat ps2) <= Int64.max_int ->
  offsetWriter.off o1 + len (List.concat ps1) <= offsetWriter.off o2 \/
  offsetWriter.off o2 + len (List.concat ps2) <= offsetWriter.off o1 ->
  forall a,
    snd (offsetWriter.writeAll o2 ps2 (snd (offsetWriter.writeAll o1 ps1 m))) a
    = snd (offsetWriter.writeAll o1 ps1 (snd (offsetWriter.writeAll o2 ps2 m))) a.
Proof.
  intros H1 H2 M1 M2 Hd a.
  rewrite (proj2 (writeAll_memory ps2 o2 _ H2 M2)),
          (proj2 (writeAll_memory ps1 o1 _ H1 M1)),
          (proj2 (writeAll_memory ps1 o1 _ H1 M1)),
          (proj2 (writeAll_memory ps2 o2 _ H2 M2)).
  destruct (Z.leb_spec (offsetWriter.off o1) a),
           (Z.ltb_spec a (offsetWriter.off o1 + len (List.concat ps1))),
           (Z.leb_spec (offsetWriter.off o2) a),
           (Z.ltb_spec a (offsetWriter.off o2 + len (List.concat ps2)));
    cbn [andb]; try reflexivity; lia.
Qed.

End Memory.

(** ** The further properties at concrete inputs *)

Section MoreInstances.

Import Examples.

(** A successful run: 150 bytes in three chunks. *)
Local Abbreviation good :=
  (multiThreadCopy (config 4 true) (native (info 64 2 false) (writer (-1) None None))
     (source 150) 4 parallel).

(** A failing run: chunk 2 of 5 fails, and so does Abort. *)
Local Abbreviation bad :=
  (multiThreadCopy (config 4 true)
     (native (info 64 2 false) (writer 2 None (Some (backendError 9))))
     (source 300) 4 sequential).

(** A run through the adapter: 128 bytes in two chunks. *)
Local Abbreviation adapted_run :=
  (multiThreadCopy (Cases.config 4 64) Cases.random_access (source 128) 4 parallel).

Lemma eligible_transfer_opens_writer_witness :
  (doMultiThreadCopy (config 4 true) Cases.remote
     (native (info 64 2 false) (writer (-1) None None)) (source 150) = true /\
   0 < MultiThreadCutoff Cases.remote) /\
  exists t r, good = (EvOpenChunkWriter :: t, r).
Proof.
  assert (H : doMultiThreadCopy (config 4 true) Cases.remote
                (native (info 64 2 false) (writer (-1) None None)) (source 150) = true /\
              0 < MultiThreadCutoff Cases.remote) by (split; [reflexivity|cbn; lia]).
  split; [exact H|].
  exact (eligible_transfer_opens_writer _ _ _ 4 parallel _ (proj1 H) (proj2 H)).
Defined.

Lemma object_or_error_witness :
  snd good = Ret (Some object, None) /\
  ((Some object = None /\ @None error <> None) \/
   (Some object <> None /\ @None error = None)).
Proof.
  assert (H : snd good = Ret (Some object, None)) by reflexivity.
  split; [exact H|].
  exact (object_or_error _ _ _ _ _ _ _ H).
Defined.

Lemma abort_iff_error_witness :
  (In (EvChunkWriter (info 64 2 false)) (fst bad) /\
   snd bad = Ret (None, Some write_failed)) /\
  count is_Abort (fst bad) = 1%nat.
Proof.
  assert (H : In (EvChunkWriter (info 64 2 false)) (fst bad) /\
              snd bad = Ret (None, Some write_failed))
    by (split; [vm_compute; here|reflexivity]).
  split; [exact H|].
  exact (abort_iff_error _ _ _ _ _ _ _ _ (proj1 H) (proj2 H)).
Defined.

Lemma abort_is_last_witness :
  In (EvAbort (Some (backendError 9))) (fst bad) /\
  exists before i closeErr err,
    fst bad = before ++ [EvAbort (Some (backendError 9))] /\
    In (EvChunkWriter i) before /\ LeavePartsOnError i = false /\
    In (EvClose closeErr) before /\
    (forall ev, In ev before -> is_Abort ev = false) /\
    snd bad = Ret (None, Some err).
Proof.
  assert (H : In (EvAbort (Some (backendError 9))) (fst bad)) by (vm_compute; here).
  split; [exact H|].
  exact (abort_is_last _ _ _ _ _ _ H).
Defined.

Lemma nothing_touched_unless_opened_witness :
  let X := multiThreadCopy (config 4 true)
             (native (info 64 2 false) (writer (-1) None None)) (source 0) 4 parallel in
  (forall i, ~ In (EvChunkWriter i) (fst X)) /\
  (forall ev, In ev (fst X) -> ev = EvOpenChunkWriter \/ ev = EvOpenWriterAt) /\
  ((exists err, snd X = Ret (None, Some err)) \/ (exists msg, snd X = Panic msg)).
Proof.
  cbv zeta.
  assert (H : forall i,
    ~ In (EvChunkWriter i)
        (fst (multiThreadCopy (config 4 true)
                (native (info 64 2 false) (writer (-1) None None))
                (source 0) 4 parallel))) by (intros i []).
  split; [exact H|].
  exact (nothing_touched_unless_opened _ _ _ _ _ H).
Defined.

Lemma chunks_started_in_order_witness :
  In (EvSetLimit 5 4) (fst bad) /\
  exists k, (k <= Z.to_nat 5)%nat /\ filter is_Go (fst bad) = map EvGo (chunk_numbers 0 k).
Proof.
  assert (H : In (EvSetLimit 5 4) (fst bad)) by (vm_compute; here).
  split; [exact H|].
  exact (chunks_started_in_order _ _ _ _ _ _ _ H).
Defined.

Lemma success_copies_every_chunk_witness :
  (In (EvChunkWriter (info 64 2 false)) (fst good) /\ In (EvSetLimit 3 3) (fst good) /\
   snd good = Ret (Some object, None) /\
   (forall i, parent_done parallel i = false)) /\
  In (EvClose None) (fst good) /\
  forall i, 0 <= i < 3 ->
    In (EvGo i) (fst good) /\ In (EvDone i None) (fst good) /\
    (0 < ChunkSize (info 64 2 false) -> Size (source 150) <= Int64.max_int ->
     In (EvWriteChunk i) (fst good)).
Proof.
  assert (H : In (EvChunkWriter (info 64 2 false)) (fst good) /\
              In (EvSetLimit 3 3) (fst good) /\
              snd good = Ret (Some object, None) /\
              (forall i, parent_done parallel i = false)).
  { split; [vm_compute; here|]. split; [vm_compute; here|].
    split; [reflexivity|intros i; reflexivity]. }
  split; [exact H|].
  exact (success_copies_every_chunk _ _ _ _ _ _ _ _ _
           (proj1 H) (proj1 (proj2 H)) (proj1 (proj2 (proj2 H)))
           (proj2 (proj2 (proj2 H)))).
Defined.

Lemma failure_stops_spawning_witness :
  (In (EvDone 2 (Some write_failed)) (fst bad) /\
   finished_before sequential 2 3 = true /\ 2 < 3) /\
  ~ In (EvGo 3) (fst bad).
Proof.
  assert (H : In (EvDone 2 (Some write_failed)) (fst bad) /\
              finished_before sequential 2 3 = true /\ 2 < 3).
  { split; [vm_compute; here|]. split; [reflexivity|lia]. }
  split; [exact H|].
  exact (failure_stops_spawning _ _ _ _ _ _ _ _
           (proj1 H) (proj1 (proj2 H)) (proj2 (proj2 H))).
Defined.

Lemma done_context_copies_nothing_witness :
  let f := native (info 64 2 false) (writer (-1) None None) in
  let X := multiThreadCopy (config 4 true) f (source 150) 4 Cases.cancelled in
  (parent_done Cases.cancelled 0 = true /\ In (EvSetLimit 3 3) (fst X)) /\
  (forall ev, In ev (fst X) -> is_chunk_event ev = false) /\
  (exists closeErr, In (EvClose closeErr) (fst X)) /\
  (forall closeErr, In (EvClose (Some closeErr)) (fst X) ->
     snd X = Ret (None, Some (close_failed closeErr))) /\
  (forall obj, In (EvClose None) (fst X) -> NewObject f = inr obj ->
     PartialUploads (features f) = false -> snd X = Ret (Some obj, None)).
Proof.
  cbv zeta.
  assert (H : parent_done Cases.cancelled 0 = true /\
              In (EvSetLimit 3 3)
                (fst (multiThreadCopy (config 4 true)
                        (native (info 64 2 false) (writer (-1) None None))
                        (source 150) 4 Cases.cancelled))).
  { split; [reflexivity|vm_compute; here]. }
  split; [exact H|].
  exact (done_context_copies_nothing _ _ _ 4 _ 3 3 (proj1 H) (proj2 H)).
Defined.

Lemma negative_chunk_size_numChunks_witness :
  (0 < 10 <= Int64.max_int /\ Int64.min_int <= -3 < 0) /\
  exists n, calculateNumChunks 10 (-3) = Ret n /\ n <= 1 /\ (n = 1 <-> 10 < - -3).
Proof.
  assert (H : 0 < 10 <= Int64.max_int /\ Int64.min_int <= -3 < 0)
    by (unfold Int64.min_int, Int64.max_int; lia).
  split; [exact H|].
  exact (negative_chunk_size_numChunks 10 (-3) (proj1 H) (proj2 H)).
Defined.

Lemma negative_chunk_size_copies_nothing_witness :
  let i := info (-3) 2 false in
  let f := native i (writer (-1) None None) in
  let X := multiThreadCopy (config 4 true) f (source 10) 4 parallel in
  (In (EvChunkWriter i) (fst X) /\ Int64.min_int <= ChunkSize i < 0 /\
   - ChunkSize i <= Size (source 10) <= Int64.max_int) /\
  (forall ev, In ev (fst X) -> is_chunk_event ev = false) /\
  (exists closeErr, In (EvClose closeErr) (fst X)) /\
  (forall obj, In (EvClose None) (fst X) -> NewObject f = inr obj ->
     PartialUploads (features f) = false -> snd X = Ret (Some obj, None)).
Proof.
  cbv zeta.
  assert (H : In (EvChunkWriter (info (-3) 2 false))
                (fst (multiThreadCopy (config 4 true)
                        (native (info (-3) 2 false) (writer (-1) None None))
                        (source 10) 4 parallel)) /\
              Int64.min_int <= ChunkSize (info (-3) 2 false) < 0 /\
              - ChunkSize (info (-3) 2 false) <= Size (source 10) <= Int64.max_int).
  { split; [vm_compute; here|]. unfold Int64.min_int, Int64.max_int. cbn. lia. }
  split; [exact H|].
  exact (negative_chunk_size_copies_nothing _ _ _ 4 parallel _
           (proj1 H) (proj1 (proj2 H)) (proj2 (proj2 H))).
Defined.

Lemma source_opened_on_tiles_witness :
  (In (EvChunkWriter (info 64 2 false)) (fst good) /\ In (EvSetLimit 3 3) (fst good) /\
   0 < ChunkSize (info 64 2 false) /\ Size (source 150) <= Int64.max_int /\
   3 * 64 <= Int64.max_int /\ In (EvOpen 2 128 149) (fst good)) /\
  0 <= 2 < 3 /\ 128 = 2 * 64 /\ 149 = Z.min ((2 + 1) * 64) 150 - 1.
Proof.
  assert (H : In (EvChunkWriter (info 64 2 false)) (fst good) /\
              In (EvSetLimit 3 3) (fst good) /\
              0 < ChunkSize (info 64 2 false) /\ Size (source 150) <= Int64.max_int /\
              3 * 64 <= Int64.max_int /\ In (EvOpen 2 128 149) (fst good)).
  { split; [vm_compute; here|]. split; [vm_compute; here|].
    split; [cbn; lia|]. split; [unfold Int64.max_int; cbn; lia|].
    split; [unfold Int64.max_int; lia|vm_compute; here]. }
  split; [exact H|].
  exact (source_opened_on_tiles _ _ _ _ _ _ _ _ _ _ _
           (proj1 H) (proj1 (proj2 H)) (proj1 (proj2 (proj2 H)))
           (proj1 (proj2 (proj2 (proj2 H))))
           (proj1 (proj2 (proj2 (proj2 (proj2 H)))))
           (proj2 (proj2 (proj2 (proj2 (proj2 H)))))).
Defined.

Lemma oversized_chunk_size_single_chunk_witness :
  let i := info 64 4 false in
  let X := multiThreadCopy (config 8 true) (native i (writer (-1) None None))
             (source 10) 8 sequential in
  (In (EvChunkWriter i) (fst X) /\ Size (source 10) <= Int64.max_int /\
   Size (source 10) <= ChunkSize i) /\
  (forall n c, In (EvSetLimit n c) (fst X) -> n = 1) /\
  (forall j s e, In (EvOpen j s e) (fst X) -> j = 0 /\ s = 0 /\ e = Size (source 10) - 1).
Proof.
  cbv zeta.
  assert (H : In (EvChunkWriter (info 64 4 false))
                (fst (multiThreadCopy (config 8 true)
                        (native (info 64 4 false) (writer (-1) None None))
                        (source 10) 8 sequential)) /\
              Size (source 10) <= Int64.max_int /\
              Size (source 10) <= ChunkSize (info 64 4 false)).
  { split; [vm_compute; here|]. unfold Int64.max_int. cbn. lia. }
  split; [exact H|].
  exact (oversized_chunk_size_single_chunk _ _ _ 8 sequential _
           (proj1 H) (proj1 (proj2 H)) (proj2 (proj2 H))).
Defined.

Lemma native_writer_gets_buffered_chunks_witness :
  let f := native (info 64 2 false) (writer (-1) None None) in
  (OpenChunkWriter (features f) = Some (inr (info 64 2 false, writer (-1) None None)) /\
   In (EvChunkWriter (info 64 2 false)) (fst good) /\ In (EvSetLimit 3 3) (fst good)) /\
  ~ In EvOpenWriterAt (fst good) /\
  (In (EvWriteChunk 1) (fst good) ->
   io_Open (src_io (source 150) 1) = None /\
   io_CopyN (src_io (source 150) 1)
     (chunkLength (planned (Size (source 150)) (ChunkSize (info 64 2 false)) 3 false) 1)
   = None).
Proof.
  cbv zeta.
  assert (H : OpenChunkWriter (features (native (info 64 2 false) (writer (-1) None None)))
              = Some (inr (info 64 2 false, writer (-1) None None)) /\
              In (EvChunkWriter (info 64 2 false)) (fst good) /\
              In (EvSetLimit 3 3) (fst good)).
  { split; [reflexivity|]. split; vm_compute; here. }
  split; [exact H|].
  exact (native_writer_gets_buffered_chunks _ _ _ _ _ _ _ _ _ 1
           (proj1 H) (proj1 (proj2 H)) (proj2 (proj2 H))).
Defined.

Lemma adapted_writer_info_witness :
  let i := {| ChunkSize := 64; Concurrency := 4; LeavePartsOnError := false |} in
  (OpenChunkWriter (features Cases.random_access) = None /\
   In (EvChunkWriter i) (fst adapted_run)) /\
  i = {| ChunkSize := MultiThreadChunkSize (Cases.config 4 64);
         Concurrency := MultiThreadStreams (Cases.config 4 64);
         LeavePartsOnError := false |} /\
  MultiThreadChunkSize (Cases.config 4 64) <> 0 /\
  In EvOpenWriterAt (fst adapted_run) /\
  (forall o e, snd adapted_run = Ret (o, Some e) ->
     In (EvAbort (writerAtChunkWriter.Abort Cases.random_access)) (fst adapted_run)).
Proof.
  cbv zeta.
  assert (H : OpenChunkWriter (features Cases.random_access) = None /\
              In (EvChunkWriter
                    {| ChunkSize := 64; Concurrency := 4; LeavePartsOnError := false |})
                 (fst adapted_run)).
  { split; [reflexivity|vm_compute; here]. }
  split; [exact H|].
  exact (adapted_writer_info _ _ _ 4 parallel _ (proj1 H) (proj2 H)).
Defined.

Lemma adapted_concurrency_not_clamped_witness :
  (OpenChunkWriter (features Cases.random_access) = None /\
   4 = MultiThreadStreams (Cases.config 4 64) /\
   In (EvSetLimit 2 4) (fst adapted_run)) /\
  4 = Z.max 1 (MultiThreadStreams (Cases.config 4 64)).
Proof.
  assert (H : OpenChunkWriter (features Cases.random_access) = None /\
              4 = MultiThreadStreams (Cases.config 4 64) /\
              In (EvSetLimit 2 4) (fst adapted_run)).
  { split; [reflexivity|]. split; [reflexivity|vm_compute; here]. }
  split; [exact H|].
  exact (adapted_concurrency_not_clamped _ _ _ _ _ _ _
           (proj1 H) (proj1 (proj2 H)) (proj2 (proj2 H))).
Defined.

Lemma adapted_zero_chunk_size_panics_witness :
  (OpenChunkWriter (features Cases.random_access) = None /\
   OpenWriterAt (features Cases.random_access) = Some (inr Cases.handle) /\
   MultiThreadChunkSize (Cases.config 4 0) = 0 /\ 0 < Size (source 128)) /\
  multiThreadCopy (Cases.config 4 0) Cases.random_access (source 128) 4 parallel
  = ([EvOpenChunkWriter; EvOpenWriterAt], Panic divide_by_zero).
Proof.
  assert (H : OpenChunkWriter (features Cases.random_access) = None /\
              OpenWriterAt (features Cases.random_access) = Some (inr Cases.handle) /\
              MultiThreadChunkSize (Cases.config 4 0) = 0 /\ 0 < Size (source 128)).
  { split; [reflexivity|]. split; [reflexivity|]. split; [reflexivity|cbn; lia]. }
  split; [exact H|].
  exact (adapted_zero_chunk_size_panics _ _ _ 4 parallel _
           (proj1 H) (proj1 (proj2 H)) (proj1 (proj2 (proj2 H)))
           (proj2 (proj2 (proj2 H)))).
Defined.

Lemma adapted_transfer_not_buffered_witness :
  OpenChunkWriter (features Cases.random_access) = None /\
  multiThreadCopy (Cases.config 4 64) Cases.random_access (unbuffered (source 128))
    4 parallel
  = adapted_run.
Proof.
  assert (H : OpenChunkWriter (features Cases.random_access) = None) by reflexivity.
  split; [exact H|].
  exact (adapted_transfer_not_buffered _ _ _ 4 parallel H).
Defined.

Lemma copyChunk_nil_iff_witness :
  multiThreadCopyState.chunkRange Cases.state 0 = Some (0, 64) /\
  (snd (multiThreadCopyState.copyChunk Cases.state (source 150) 0 (writer (-1) None None))
   = Ret None <->
   io_Open (src_io (source 150) 0) = None /\
   (multiThreadCopyState.noSeek Cases.state = false ->
    io_CopyN (src_io (source 150) 0) (Int64.wrap (64 - 0)) = None /\
    io_rwClose (src_io (source 150) 0) = None) /\
   (exists n, cw_WriteChunk (writer (-1) None None) 0 = Ret (n, None)) /\
   io_rcClose (src_io (source 150) 0) = None).
Proof.
  assert (H : multiThreadCopyState.chunkRange Cases.state 0 = Some (0, 64))
    by reflexivity.
  split; [exact H|].
  exact (copyChunk_nil_iff _ _ _ _ _ _ H).
Defined.

Lemma copyChunk_first_failure_witness :
  multiThreadCopyState.chunkRange Cases.state 2 = Some (128, 150) /\
  (forall n err,
     io_Open (src_io (source 150) 2) = None ->
     (multiThreadCopyState.noSeek Cases.state = false ->
      io_CopyN (src_io (source 150) 2) (Int64.wrap (150 - 128)) = None) ->
     cw_WriteChunk (writer 2 None None) 2 = Ret (n, Some err) ->
     multiThreadCopyState.copyChunk Cases.state (source 150) 2 (writer 2 None None)
     = ([EvOpen 2 128 (Int64.wrap (150 - 1)); EvWriteChunk 2],
        Ret (Some (wrapError "multi-thread copy: failed to write chunk" err)))).
Proof.
  assert (H : multiThreadCopyState.chunkRange Cases.state 2 = Some (128, 150))
    by reflexivity.
  split; [exact H|].
  exact (proj2 (proj2 (copyChunk_first_failure Cases.state (source 150) 2
                         (writer 2 None None) _ _ H))).
Defined.

Lemma chunk_lengths_add_up_witness :
  (0 < multiThreadCopyState.size Cases.state <= Int64.max_int /\
   0 < multiThreadCopyState.partSize Cases.state /\
   calculateNumChunks (multiThreadCopyState.size Cases.state)
     (multiThreadCopyState.partSize Cases.state)
   = Ret (multiThreadCopyState.numChunks Cases.state) /\
   multiThreadCopyState.numChunks Cases.state * multiThreadCopyState.partSize Cases.state
   <= Int64.max_int) /\
  sum (map (chunkLength Cases.state)
         (chunk_numbers 0 (Z.to_nat (multiThreadCopyState.numChunks Cases.state))))
  = multiThreadCopyState.size Cases.state.
Proof.
  assert (H : 0 < multiThreadCopyState.size Cases.state <= Int64.max_int /\
              0 < multiThreadCopyState.partSize Cases.state /\
              calculateNumChunks (multiThreadCopyState.size Cases.state)
                (multiThreadCopyState.partSize Cases.state)
              = Ret (multiThreadCopyState.numChunks Cases.state) /\
              multiThreadCopyState.numChunks Cases.state
              * multiThreadCopyState.partSize Cases.state <= Int64.max_int).
  { unfold Int64.max_int. cbn. repeat split; lia. }
  split; [exact H|].
  exact (chunk_lengths_add_up Cases.state
           (proj1 H) (proj1 (proj2 H)) (proj1 (proj2 (proj2 H)))
           (proj2 (proj2 (proj2 H)))).
Defined.

Lemma reader_and_writer_agree_witness :
  (0 < 150 <= Int64.max_int /\ 0 < 64 /\
   calculateNumChunks 150 64 = Ret 3 /\
   calculateNumChunks 150 (if 64 >? 150 then 150 else 64) = Ret 3 /\
   3 * (if 64 >? 150 then 150 else 64) <= Int64.max_int) /\
  3 = 3 /\
  forall i, 0 <= i < 3 ->
    writerAtChunkWriter.bytesToWrite
      {| writerAtChunkWriter.size := 150;
         writerAtChunkWriter.chunkSize := 64;
         writerAtChunkWriter.chunks := 3;
         writerAtChunkWriter.writeBufferSize := 0 |} i
    = Ret (chunkLength (planned 150 64 3 true) i).
Proof.
  assert (H : 0 < 150 <= Int64.max_int /\ 0 < 64 /\
              calculateNumChunks 150 64 = Ret 3 /\
              calculateNumChunks 150 (if 64 >? 150 then 150 else 64) = Ret 3 /\
              3 * (if 64 >? 150 then 150 else 64) <= Int64.max_int).
  { unfold Int64.max_int. cbn. repeat split; lia. }
  split; [exact H|].
  exact (reader_and_writer_agree 150 64 3 3 0 true
           (proj1 H) (proj1 (proj2 H)) (proj1 (proj2 (proj2 H)))
           (proj1 (proj2 (proj2 (proj2 H)))) (proj2 (proj2 (proj2 (proj2 H))))).
Defined.

Lemma memory_writes_concatenate_witness :
  let o := newOffsetWriter 64 in
  let ps := [[Byte.x61; Byte.x62]; [Byte.x63]] in
  (Int64.in_range (offsetWriter.off o) /\
   offsetWriter.off o + Z.of_nat (List.length (List.concat ps)) <= Int64.max_int) /\
  offsetWriter.off (fst (offsetWriter.writeAll o ps empty))
  = offsetWriter.off o + Z.of_nat (List.length (List.concat ps)) /\
  forall a,
    snd (offsetWriter.writeAll o ps empty) a
    = if (offsetWriter.off o <=? a)
         && (a <? offsetWriter.off o + Z.of_nat (List.length (List.concat ps)))
      then nth_error (List.concat ps) (Z.to_nat (a - offsetWriter.off o))
      else empty a.
Proof.
  cbv zeta.
  assert (H : Int64.in_range (offsetWriter.off (newOffsetWriter 64)) /\
              offsetWriter.off (newOffsetWriter 64)
              + Z.of_nat (List.length (List.concat [[Byte.x61; Byte.x62]; [Byte.x63]]))
              <= Int64.max_int).
  { unfold Int64.in_range, Int64.min_int, Int64.max_int. cbn. lia. }
  split; [exact H|].
  exact (memory_writes_concatenate (newOffsetWriter 64)
           [[Byte.x61; Byte.x62]; [Byte.x63]] empty (proj1 H) (proj2 H)).
Defined.

Lemma disjoint_writes_commute_witness :
  let o1 := newOffsetWriter 0 in
  let o2 := newOffsetWriter 64 in
  let ps1 := [[Byte.x61; Byte.x62]] in
  let ps2 := [[Byte.x63]] in
  (Int64.in_range (offsetWriter.off o1) /\ Int64.in_range (offsetWriter.off o2) /\
   offsetWriter.off o1 + Z.of_nat (List.length (List.concat ps1)) <= Int64.max_int /\
   offsetWriter.off o2 + Z.of_nat (List.length (List.concat ps2)) <= Int64.max_int /\
   (offsetWriter.off o1 + Z.of_nat (List.length (List.concat ps1)) <= offsetWriter.off o2 \/
    offsetWriter.off o2 + Z.of_nat (List.length (List.concat ps2)) <= offsetWriter.off o1)) /\
  forall a,
    snd (offsetWriter.writeAll o2 ps2 (snd (offsetWriter.writeAll o1 ps1 empty))) a
    = snd (offsetWriter.writeAll o1 ps1 (snd (offsetWriter.writeAll o2 ps2 empty))) a.
Proof.
  cbv zeta.
  assert (H : Int64.in_range (offsetWriter.off (newOffsetWriter 0)) /\
              Int64.in_range (offsetWriter.off (newOffsetWriter 64)) /\
              offsetWriter.off (newOffsetWriter 0)
              + Z.of_nat (List.length (List.concat [[Byte.x61; Byte.x62]]))
              <= Int64.max_int /\
              offsetWriter.off (newOffsetWriter 64)
              + Z.of_nat (List.length (List.concat [[Byte.x63]])) <= Int64.max_int /\
              (offsetWriter.off (newOffsetWriter 0)
               + Z.of_nat (List.length (List.concat [[Byte.x61; Byte.x62]]))
               <= offsetWriter.off (newOffsetWriter 64) \/
               offsetWriter.off (newOffsetWriter 64)
               + Z.of_nat (List.length (List.concat [[Byte.x63]]))
               <= offsetWriter.off (newOffsetWriter 0))).
  { unfold Int64.in_range, Int64.min_int, Int64.max_int. cbn. repeat split; lia. }
  split; [exact H|].
  exact (disjoint_writes_commute (newOffsetWriter 0) (newOffsetWriter 64)
           [[Byte.x61; Byte.x62]] [[Byte.x63]] empty
           (proj1 H) (proj1 (proj2 H)) (proj1 (proj2 (proj2 H)))
           (proj1 (proj2 (proj2 (proj2 H)))) (proj2 (proj2 (proj2 (proj2 H))))).
Defined.

End MoreInstances.
